(** * Halide auto-scheduler tutorial generators and the scheduler they drive

    The development has two layers.

    - [Frontend], [Harris] and [SimpleBlur] embed the two generators of the
      repository: [AutoScheduled] (tutorial lesson 21, Harris corner
      detection) and [SimpleBlur].  Their [generate] methods become pure
      functions on coordinates; their [schedule] methods become state
      transformers on the record of everything a generator can attach to
      its pipeline (bounds estimates, scalar estimates, scheduling
      directives, requests for auto-scheduling).

    - [Scheduler] models the pipeline auto-scheduler the generators call
      through [auto_schedule_outputs].  The generators only call it: the
      scheduler itself and the code generator that executes its schedules
      are Halide library code, so the definitions of that module follow
      the specification (sections 3, 4 and 9) and say so. *)

From Stdlib Require Import ZArith Lia Bool.
From stdpp Require Import gmap strings list fin_maps.

Local Open Scope Z_scope.

(* ===================================================================== *)
(** * The part of the Halide front end the generators use *)
(* ===================================================================== *)

Module Frontend.

(** [MachineParams(parallelism, last_level_cache_size, balance)]. *)
Record MachineParams := mkMachineParams {
  parallelism : Z;
  last_level_cache_size : Z;
  balance : Z
}.

(** A loop level named by a Func and one of its loop variables, as in
    [compute_at(output, yi)]. *)
Record LoopLevel := mkLoopLevel {
  ll_func : string;
  ll_var : string
}.

(** The scheduling calls that occur in the two generators. *)
Inductive Directive :=
| Split (old outer inner : string) (factor : Z)
| Parallel (v : string)
| Vectorize (v : string) (factor : Z)
| StoreAt (l : LoopLevel)
| ComputeAt (l : LoopLevel)
| ComputeRoot.

(** One bounds estimate: [f.estimate(var, min, extent)] or
    [input.dim(i).set_bounds_estimate(min, extent)]. *)
Record BoundsEstimate := mkBoundsEstimate {
  be_var : string;
  be_min : Z;
  be_extent : Z
}.

(** The value of a scalar estimate: an [int], or a [float] literal
    [m * 10^e]. *)
Inductive Scalar :=
| SInt (z : Z)
| SFloat (m e : Z).

(** What a generator has attached to its pipeline.  Every call of the
    scheduling interface is recorded where Halide records it: estimates
    with the Func, Input or Output they are given for, directives with the
    Func they are applied to, and each request for auto-scheduling with
    the machine parameters it was given ([None] when the argument is
    omitted). *)
Record GenState := mkGenState {
  bounds_estimates : gmap string (list BoundsEstimate);
  scalar_estimates : gmap string Scalar;
  directives : gmap string (list Directive);
  auto_schedule_calls : list (option MachineParams)
}.

(** A freshly generated pipeline: nothing estimated, nothing scheduled. *)
Definition initial : GenState :=
  mkGenState ∅ ∅ ∅ [].

Definition estimate (f v : string) (mn ext : Z) (st : GenState) : GenState :=
  mkGenState
    (<[f := default [] (bounds_estimates st !! f) ++ [mkBoundsEstimate v mn ext]]>
       (bounds_estimates st))
    (scalar_estimates st) (directives st) (auto_schedule_calls st).

Definition set_estimate (p : string) (v : Scalar) (st : GenState) : GenState :=
  mkGenState (bounds_estimates st) (<[p := v]> (scalar_estimates st))
    (directives st) (auto_schedule_calls st).

Definition apply_directive (f : string) (d : Directive) (st : GenState) : GenState :=
  mkGenState (bounds_estimates st) (scalar_estimates st)
    (<[f := default [] (directives st !! f) ++ [d]]> (directives st))
    (auto_schedule_calls st).

Definition auto_schedule_outputs (mp : option MachineParams) (st : GenState)
  : GenState :=
  mkGenState (bounds_estimates st) (scalar_estimates st) (directives st)
    (auto_schedule_calls st ++ [mp]).

(** The directives a Func carries; the default schedule is the empty list. *)
Definition schedule_of (st : GenState) (f : string) : list Directive :=
  default [] (directives st !! f).

Definition estimates_of (st : GenState) (f : string) : list BoundsEstimate :=
  default [] (bounds_estimates st !! f).

(** Estimating the dimensions [vs] of [f], one after the other, each from
    0 with the same extent. *)
Definition estimate_all (f : string) (ext : Z) (vs : list string)
  (st : GenState) : GenState :=
  foldl (fun st v => estimate f v 0 ext st) st vs.

End Frontend.

(** Element arithmetic is kept abstract: the generators only combine
    values with [+], [-], [*] and [/] and write literals.  [elit] gives
    the value of a literal in the element type: [elit (SFloat 299 (-3))]
    is [0.299f], and [elit (SInt 12)] is the [int] 12 converted to the
    type of the other operand. *)
Class Elem (V : Type) := {
  eadd : V -> V -> V;
  esub : V -> V -> V;
  emul : V -> V -> V;
  ediv : V -> V -> V;
  elit : Frontend.Scalar -> V
}.

(* ===================================================================== *)
(** * [AutoScheduled]: the Harris corner detector of tutorial lesson 21 *)
(* ===================================================================== *)

Module Harris.
Import Frontend.

Section Algorithm.
Context {F : Type} `{Elem F}.

Local Infix "+." := eadd (at level 50, left associativity).
Local Infix "-." := esub (at level 50, left associativity).
Local Infix "*." := emul (at level 40, left associativity).
Local Infix "/." := ediv (at level 40, left associativity).

(** The [float] literal of value [m * 10^e]. *)
Definition flit (m e : Z) : F := elit (SFloat m e).

(** A pure Func of two, respectively three, coordinates. *)
Definition Func2 := Z -> Z -> F.
Definition Func3 := Z -> Z -> Z -> F.

(** [Input<Buffer<float>> input{"input", 3}] and [Input<float> factor]. *)
Variable input : Func3.
Variable factor : F.

(** [BoundaryConditions::repeat_edge] belongs to the Halide library. *)
Variable repeat_edge : Func3 -> Func3.

Definition sum3x3 (f : Func2) (x y : Z) : F :=
  f (x-1) (y-1) +. f (x-1) y +. f (x-1) (y+1) +.
  f x (y-1)     +. f x y     +. f x (y+1) +.
  f (x+1) (y-1) +. f (x+1) y +. f (x+1) (y+1).

Definition in_b : Func3 := repeat_edge input.

Definition gray : Func2 := fun x y =>
  flit 299 (-3) *. in_b x y 0 +. flit 587 (-3) *. in_b x y 1
    +. flit 114 (-3) *. in_b x y 2.

(** [1.0f/12], [-1.0f/12] and their siblings: a [float] literal divided
    by the [int] 12. *)
Definition twelfth (n : Z) : F := flit (n * 10) (-1) /. elit (SInt 12).
Definition neg_twelfth (n : Z) : F := flit (- n * 10) (-1) /. elit (SInt 12).

Definition Iy : Func2 := fun x y =>
  gray (x-1) (y-1) *. neg_twelfth 1 +. gray (x-1) (y+1) *. twelfth 1 +.
  gray x (y-1) *. neg_twelfth 2 +. gray x (y+1) *. twelfth 2 +.
  gray (x+1) (y-1) *. neg_twelfth 1 +. gray (x+1) (y+1) *. twelfth 1.

Definition Ix : Func2 := fun x y =>
  gray (x-1) (y-1) *. neg_twelfth 1 +. gray (x+1) (y-1) *. twelfth 1 +.
  gray (x-1) y *. neg_twelfth 2 +. gray (x+1) y *. twelfth 2 +.
  gray (x-1) (y+1) *. neg_twelfth 1 +. gray (x+1) (y+1) *. twelfth 1.

Definition Ixx : Func2 := fun x y => Ix x y *. Ix x y.
Definition Iyy : Func2 := fun x y => Iy x y *. Iy x y.
Definition Ixy : Func2 := fun x y => Ix x y *. Iy x y.
Definition Sxx : Func2 := fun x y => sum3x3 Ixx x y.
Definition Syy : Func2 := fun x y => sum3x3 Iyy x y.
Definition Sxy : Func2 := fun x y => sum3x3 Ixy x y.
Definition det : Func2 := fun x y => Sxx x y *. Syy x y -. Sxy x y *. Sxy x y.
Definition trace : Func2 := fun x y => Sxx x y +. Syy x y.
Definition harris : Func2 := fun x y =>
  det x y -. flit 4 (-2) *. trace x y *. trace x y.
Definition output1 : Func2 := fun x y => harris (x + 2) (y + 2).
Definition output2 : Func2 := fun x y => factor *. harris (x + 2) (y + 2).
End Algorithm.

(** The three constants of [schedule]. *)
Definition kParallelism : Z := 32.
Definition kLastLevelCacheSize : Z := 16 * 1024 * 1024.
Definition kBalance : Z := 40.
Definition machine_params : MachineParams :=
  mkMachineParams kParallelism kLastLevelCacheSize kBalance.

(** [schedule()].  [factor.set_estimate(2.0f)] records the literal's
    value; the [Func]s without a name in the source ([gray], [Iy], [Ix])
    are recorded under their member names. *)
Definition schedule (auto_schedule : bool) (st : GenState) : GenState :=
  if auto_schedule then
    let st := estimate "input" "0" 0 1024 st in
    let st := estimate "input" "1" 0 1024 st in
    let st := estimate "input" "2" 0 3 st in
    let st := set_estimate "factor" (SFloat 20 (-1)) st in
    let st := estimate "output1" "x" 0 1024 st in
    let st := estimate "output1" "y" 0 1024 st in
    let st := estimate "output2" "x" 0 1024 st in
    let st := estimate "output2" "y" 0 1024 st in
    auto_schedule_outputs (Some machine_params) st
  else
    let st := apply_directive "gray" ComputeRoot st in
    let st := apply_directive "Iy" ComputeRoot st in
    apply_directive "Ix" ComputeRoot st.

End Harris.

(* ===================================================================== *)
(** * [SimpleBlur] *)
(* ===================================================================== *)

Module SimpleBlur.
Import Frontend.

Section Algorithm.
(** The element type is a generator argument ([input.type]). *)
Context {V : Type} `{Elem V}.

(** A Func of [x], [y] and the coordinates the placeholder [_] stands for. *)
Definition Func := Z -> Z -> list Z -> V.

Variable input : Func.
Variable width height : Z.
(** [BoundaryConditions::repeat_edge(f, {{min, extent}, ...})] belongs
    to the Halide library. *)
Variable repeat_edge : Func -> list (Z * Z) -> Func.

Definition in_ : Func := repeat_edge input [(0, width); (0, height)].

Definition blur_x : Func := fun x y r =>
  ediv (eadd (eadd (in_ x y r) (in_ (x+1) y r)) (in_ (x+2) y r))
       (elit (SInt 3)).

Definition output : Func := fun x y r =>
  ediv (eadd (eadd (blur_x x y r) (blur_x x (y+1) r)) (blur_x x (y+2) r))
       (elit (SInt 3)).
End Algorithm.

(** [for (size_t i = lo; i < hi; ++i) body(i)], every step of which may
    fail (an index out of range). *)
Fixpoint for_each {S : Type} (idxs : list nat) (body : nat -> S -> option S)
  (st : S) : option S :=
  match idxs with
  | [] => Some st
  | i :: idxs' =>
      match body i st with
      | Some st' => for_each idxs' body st'
      | None => None
      end
  end.

Definition for_range {S : Type} (lo hi : nat) (body : nat -> S -> option S)
  (st : S) : option S :=
  for_each (seq lo (hi - lo)) body st.

Definition W : Z := 1536.
Definition H : Z := 2560.
Definition C : Z := 4.

Section Schedule.
(** The two generator parameters. *)
Variable auto_schedule estimate_only : bool.
(** [input.args()]: which Vars an [Input<Func>] is defined with is not
    known to the generator (the source's "wart"). *)
Variable input_args : list string.
(** The Vars the placeholder [_] of [output(x, y, _)] expands to. *)
Variable implicit_args : list string.

Definition output_args : list string := "x" :: "y" :: implicit_args.

(** [f.estimate(args[i], 0, ext)]; indexing past the end of [args()] has
    no defined result. *)
Definition estimate_arg (f : string) (args : list string) (ext : Z) (i : nat)
  (st : GenState) : option GenState :=
  match args !! i with
  | Some v => Some (estimate f v 0 ext st)
  | None => None
  end.

Definition set_estimates (st : GenState) : option GenState :=
  st ← estimate_arg "input" input_args W 0 st;
  st ← estimate_arg "input" input_args H 1 st;
  st ← for_range 2 (length input_args) (estimate_arg "input" input_args C) st;
  let st := set_estimate "width" (SInt W) st in
  let st := set_estimate "height" (SInt H) st in
  let st := estimate "output" "x" 0 W st in
  let st := estimate "output" "y" 0 H st in
  for_range 2 (length output_args) (estimate_arg "output" output_args C) st.

Definition manual_schedule (st : GenState) : GenState :=
  let st := apply_directive "output" (Split "y" "y" "yi" 8) st in
  let st := apply_directive "output" (Parallel "y") st in
  let st := apply_directive "output" (Vectorize "x" 8) st in
  let st := apply_directive "blur_x" (StoreAt (mkLoopLevel "output" "y")) st in
  let st := apply_directive "blur_x" (ComputeAt (mkLoopLevel "output" "yi")) st in
  apply_directive "blur_x" (Vectorize "x" 8) st.

Definition schedule (st : GenState) : option GenState :=
  if auto_schedule || estimate_only then
    st ← set_estimates st;
    if auto_schedule then Some (auto_schedule_outputs None st) else Some st
  else Some (manual_schedule st).
End Schedule.

End SimpleBlur.

(** The bounds estimates [SimpleBlur::schedule] gives the dimensions
    [args] of an input or output: [W] and [H] for the first two, [C] for
    the rest. *)
Definition blur_estimates (args : list string) : list Frontend.BoundsEstimate :=
  zip_with (fun v ext => Frontend.mkBoundsEstimate v 0 ext) args
    (SimpleBlur.W :: SimpleBlur.H
       :: replicate (length args - 2) SimpleBlur.C).

(* ===================================================================== *)
(** * The pipeline auto-scheduler *)
(* ===================================================================== *)

(** [auto_schedule_outputs] is implemented by Halide's auto-scheduler;
    the generators above only call it.  This module models the scheduler
    from the specification (sections 3 and 4), and the execution of a
    schedule from its glossary.  Element values stay abstract, as in the
    generators. *)

Module Scheduler.

(** ** Data model (specification, section 3) *)

(** Modelled from the spec: one dimension of a Region, a (min, extent)
    pair (the region type of the auto-scheduler is missing). *)
Record Dim := mkDim {
  dmin : Z;
  dextent : Z
}.

(** Modelled from the spec: a Region, "a per-dimension (min, extent)
    pair". *)
Definition Region := list Dim.

(** A coordinate or dimension past the end of a list reads as [0],
    respectively as the one-point dimension [{0}]. *)
Definition unit_dim : Dim := mkDim 0 1.
Definition coord (p : list Z) (d : nat) : Z := nth d p 0.
Definition dim_at (R : Region) (d : nat) : Dim := nth d R unit_dim.

Definition in_dim (c : Z) (d : Dim) : Prop :=
  dmin d <= c < dmin d + dextent d.

Definition in_dimb (c : Z) (d : Dim) : bool :=
  (dmin d <=? c) && (c <? dmin d + dextent d).

(** Membership of a point in a Region, dimension by dimension. *)
Definition in_region (p : list Z) (R : Region) : Prop :=
  forall d : nat, in_dim (coord p d) (dim_at R d).

Definition in_regionb (p : list Z) (R : Region) : bool :=
  forallb (fun d => in_dimb (coord p d) (dim_at R d))
    (seq 0 (Nat.max (length p) (length R))).

(** The Region that holds exactly the point [p]. *)
Definition point_region (p : list Z) : Region :=
  map (fun c => mkDim c 1) p.

(** Modelled from the spec: the access expression of one coordinate of a
    producer reference ("producer-reference-with-offset"; the expression
    type of the front end is missing), with the "min/max affine or
    monotonic" forms section 4.2 bounds: dimension variables of the
    stage, variables of an enclosing reduction, constant offsets and
    scalings, and [min]/[max] (hence [clamp]).  An index read from
    run-time data is not an access expression of this type. *)
Inductive Index :=
| IVar (d : nat)
| IRVar (k : nat)
| IConst (c : Z)
| IAdd (a b : Index)
| ISub (a b : Index)
| IScale (c : Z) (a : Index)
| IMin (a b : Index)
| IMax (a b : Index).

Definition IClamp (a : Index) (lo hi : Z) : Index :=
  IMax (IMin a (IConst hi)) (IConst lo).

Inductive BinOp := OpAdd | OpSub | OpMul | OpDiv.

(** Modelled from the spec: the expression tree of a Stage, the closed set
    of tagged variants of section 9: constant, parameter reference,
    producer reference with offset, arithmetic operation, reduction.  A
    reduction accumulates [body] with [op], starting from [init], over the
    inner domain [rmin, rmin + rext). *)
Inductive Expr :=
| Const (c : Frontend.Scalar)
| Param (p : string)
| Ref (f : string) (idx : list Index)
| Arith (op : BinOp) (a b : Expr)
| Reduce (op : BinOp) (init : Frontend.Scalar) (rmin rext : Z) (body : Expr).

(** Modelled from the spec: a Stage, "a named computation over an
    integer-indexed domain, with a defining expression tree"; its
    dimensionality is the number of its named dimension variables. *)
Record Stage := mkStage {
  stage_name : string;
  stage_vars : list string;
  stage_body : Expr
}.

(** The concrete value of an access expression at the point [p] of the
    stage, [renv] holding the enclosing reduction variables, innermost
    first. *)
Fixpoint eval_index (p renv : list Z) (i : Index) : Z :=
  match i with
  | IVar d => coord p d
  | IRVar k => coord renv k
  | IConst c => c
  | IAdd a b => eval_index p renv a + eval_index p renv b
  | ISub a b => eval_index p renv a - eval_index p renv b
  | IScale c a => c * eval_index p renv a
  | IMin a b => Z.min (eval_index p renv a) (eval_index p renv b)
  | IMax a b => Z.max (eval_index p renv a) (eval_index p renv b)
  end.

(** Every concrete index accessed, producer by producer, when the
    expression is evaluated at [p]: one access per reference site and per
    iteration of the enclosing reductions. *)
Fixpoint accesses (p renv : list Z) (e : Expr) : list (string * list Z) :=
  match e with
  | Const _ => []
  | Param _ => []
  | Ref f idx => [(f, map (eval_index p renv) idx)]
  | Arith _ a b => accesses p renv a ++ accesses p renv b
  | Reduce _ _ rmin rext body =>
      flat_map (fun r => accesses p (r :: renv) body) (seqZ rmin rext)
  end.

(** ** Region Analyzer (specification, section 4.2) *)

(** A bounding interval, both ends included. *)
Record Bound := mkBound {
  bmin : Z;
  bmax : Z
}.

Definition in_bound (c : Z) (b : Bound) : Prop := bmin b <= c <= bmax b.

Definition bound_of_dim (d : Dim) : Bound :=
  mkBound (dmin d) (dmin d + dextent d - 1).

Definition dim_of_bound (b : Bound) : Dim :=
  mkDim (bmin b) (bmax b - bmin b + 1).

Definition bound_at (bs : list Bound) (k : nat) : Bound :=
  nth k bs (mkBound 0 0).

(** The reduction variables in scope lie within their domains. *)
Definition renv_within (renv : list Z) (rb : list Bound) : Prop :=
  forall k : nat, in_bound (coord renv k) (bound_at rb k).

(** Modelled from the spec: "the bounding interval implied by
    substituting the requested region's bounds into the access
    expression's min/max affine or monotonic bound". *)
Fixpoint bound_index (R : Region) (rb : list Bound) (i : Index) : Bound :=
  match i with
  | IVar d => bound_of_dim (dim_at R d)
  | IRVar k => bound_at rb k
  | IConst c => mkBound c c
  | IAdd a b =>
      let ba := bound_index R rb a in
      let bb := bound_index R rb b in
      mkBound (bmin ba + bmin bb) (bmax ba + bmax bb)
  | ISub a b =>
      let ba := bound_index R rb a in
      let bb := bound_index R rb b in
      mkBound (bmin ba - bmax bb) (bmax ba - bmin bb)
  | IScale c a =>
      let ba := bound_index R rb a in
      if 0 <=? c then mkBound (c * bmin ba) (c * bmax ba)
      else mkBound (c * bmax ba) (c * bmin ba)
  | IMin a b =>
      let ba := bound_index R rb a in
      let bb := bound_index R rb b in
      mkBound (Z.min (bmin ba) (bmin bb)) (Z.min (bmax ba) (bmax bb))
  | IMax a b =>
      let ba := bound_index R rb a in
      let bb := bound_index R rb b in
      mkBound (Z.max (bmin ba) (bmin bb)) (Z.max (bmax ba) (bmax bb))
  end.

(** The Region one reference site requires of its producer. *)
Definition site_region (R : Region) (rb : list Bound) (idx : list Index)
  : Region :=
  map (fun i => dim_of_bound (bound_index R rb i)) idx.

(** All reference sites of an expression, reductions included, each with
    the Region it requires. *)
Fixpoint sites (R : Region) (rb : list Bound) (e : Expr)
  : list (string * Region) :=
  match e with
  | Const _ => []
  | Param _ => []
  | Ref f idx => [(f, site_region R rb idx)]
  | Arith _ a b => sites R rb a ++ sites R rb b
  | Reduce _ _ rmin rext body =>
      sites R (mkBound rmin (rmin + rext - 1) :: rb) body
  end.

(** The union of two Regions, as a Region: the bounding interval of each
    dimension. *)
Definition hull_dim (a b : Dim) : Dim :=
  let l := Z.min (dmin a) (dmin b) in
  let h := Z.max (dmin a + dextent a) (dmin b + dextent b) in
  mkDim l (h - l).

Definition hull_region (A B : Region) : Region :=
  map (fun d => hull_dim (dim_at A d) (dim_at B d))
    (seq 0 (Nat.max (length A) (length B))).

(** A Region [A] lies within a Region [B]. *)
Definition region_within (A B : Region) : Prop :=
  forall (d : nat) (c : Z), in_dim c (dim_at A d) -> in_dim c (dim_at B d).

(** The union over all reference sites, producer by producer. *)
Fixpoint union_sites (ss : list (string * Region)) : gmap string Region :=
  match ss with
  | [] => ∅
  | (f, r) :: rest =>
      let m := union_sites rest in
      <[f := match m !! f with
             | Some r0 => hull_region r r0
             | None => r
             end]> m
  end.

(** Modelled from the spec: the Region Analyzer's operation
    [required_region(stage, output_region)] (the region analysis of the
    auto-scheduler is missing): the Region required of each producer of
    the stage, "the union (over all reference sites in the expression,
    including reductions) of the bounding interval" of every site. *)
Definition required_region (s : Stage) (R : Region) : gmap string Region :=
  union_sites (sites R [] (stage_body s)).

(** ** Schedules (specification, section 3) *)

(** Modelled from the spec: a storage or compute granularity, "root,
    specific-consumer-loop-level, inlined".  Loop levels of a consumer are
    counted from the outermost loop: at level [l] the [l] outermost loops
    are fixed. *)
Inductive Granularity :=
| Root
| AtLevel (consumer : string) (level : nat)
| Inlined.

(** Modelled from the spec: a loop-dimension transform, "split/reorder".
    [TReorder] lists, outermost first, the positions of the current loops
    in their new order. *)
Inductive Transform :=
| TSplit (d : nat) (factor : Z)
| TReorder (order : list nat).

(** Modelled from the spec: a ScheduleSpec, "storage granularity, compute
    granularity, ordered list of loop-dimension transforms, set of
    dimensions marked parallel, set of dimensions marked vectorized with a
    factor". *)
Record ScheduleSpec := mkScheduleSpec {
  storage : Granularity;
  compute : Granularity;
  transforms : list Transform;
  parallel_dims : gset nat;
  vectorized_dims : gmap nat Z
}.

(** Modelled from the spec: a Schedule, "mapping from Stage to a
    ScheduleSpec". *)
Abbreviation Schedule := (gmap string ScheduleSpec).

#[global] Instance granularity_eq_dec : EqDecision Granularity.
Proof. solve_decision. Defined.

(** The loops of a stage: a whole dimension, or the outer or inner half
    of a dimension split by a factor. *)
Inductive Loop :=
| LWhole (d : nat)
| LOuter (d : nat) (k : Z)
| LInner (d : nat) (k : Z).

#[global] Instance loop_eq_dec : EqDecision Loop.
Proof. solve_decision. Defined.

(** Before any transform the last dimension is the outermost loop. *)
Definition initial_loops (n : nat) : list Loop :=
  map LWhole (rev (seq 0 n)).

Fixpoint split_loop (d : nat) (k : Z) (ls : list Loop) : list Loop :=
  match ls with
  | [] => []
  | LWhole d' :: rest =>
      if decide (d' = d) then LOuter d k :: LInner d k :: rest
      else LWhole d' :: split_loop d k rest
  | l :: rest => l :: split_loop d k rest
  end.

Definition apply_transform (ls : list Loop) (t : Transform) : list Loop :=
  match t with
  | TSplit d k => split_loop d k ls
  | TReorder order => omap (fun i => ls !! i) order
  end.

Definition loops_of (n : nat) (ts : list Transform) : list Loop :=
  foldl apply_transform (initial_loops n) ts.

(** The factor of the outer half of dimension [d], if that loop is among
    [ls]. *)
Fixpoint outer_factor (d : nat) (ls : list Loop) : option Z :=
  match ls with
  | [] => None
  | LOuter d' k :: rest =>
      if decide (d' = d) then Some k else outer_factor d rest
  | _ :: rest => outer_factor d rest
  end.

(** The part of dimension [d] of the box [bd] that one iteration of the
    loops [fixed] covers, around the coordinate [c]: a single point when
    the dimension is fixed, one block of the split when only its outer
    half is, the whole dimension otherwise. *)
Definition tile_dim (fixed : list Loop) (d : nat) (bd : Dim) (c : Z) : Dim :=
  if bool_decide (LWhole d ∈ fixed) then mkDim c 1
  else
    match outer_factor d fixed with
    | Some k =>
        if bool_decide (LInner d k ∈ fixed) then mkDim c 1
        else if 0 <? k then mkDim (dmin bd + k * ((c - dmin bd) / k)) k
        else bd
    | None => bd
    end.

(** The box one iteration of the [l] outermost loops covers, around the
    point [p] of the box [B]. *)
Definition tile (ls : list Loop) (l : nat) (B : Region) (p : list Z) : Region :=
  map (fun d => tile_dim (take l ls) d (dim_at B d) (coord p d))
    (seq 0 (Nat.max (length B) (length p))).

(** ** What a pipeline computes, and how a Schedule executes it *)

(** The stages of a dependency graph are kept in the topological order of
    section 4.4, consumers before producers: a reference in the body of a
    stage names a stage further down the list, or else an input buffer. *)

Section Semantics.
(** Element arithmetic, as abstract as in the generators. *)
Context {V : Type} `{Elem V}.

Definition vop (op : BinOp) : V -> V -> V :=
  match op with
  | OpAdd => eadd
  | OpSub => esub
  | OpMul => emul
  | OpDiv => ediv
  end.

(** The run-time data: scalar Parameters and input buffers. *)
Variable params : string -> V.
Variable inputs : string -> list Z -> V.

(** The value of an expression at a point, given the values of the
    producers. *)
Fixpoint eval_expr (look : string -> list Z -> V) (p renv : list Z)
  (e : Expr) : V :=
  match e with
  | Const c => elit c
  | Param q => params q
  | Ref f idx => look f (map (eval_index p renv) idx)
  | Arith op a b =>
      vop op (eval_expr look p renv a) (eval_expr look p renv b)
  | Reduce op init rmin rext body =>
      foldl (fun acc r => vop op acc (eval_expr look p (r :: renv) body))
        (elit init) (seqZ rmin rext)
  end.

(** The value a pipeline defines for stage [f] at point [p]: the
    meaning of the algorithm, with no schedule involved. *)
Fixpoint eval_stage (g : list Stage) (f : string) (p : list Z) : V :=
  match g with
  | [] => inputs f p
  | s :: rest =>
      if decide (stage_name s = f)
      then eval_expr (eval_stage rest) p [] (stage_body s)
      else eval_stage rest f p
  end.

(** The same evaluation when reading a producer can fail. *)
Fixpoint exec_expr (look : string -> list Z -> option V) (p renv : list Z)
  (e : Expr) : option V :=
  match e with
  | Const c => Some (elit c)
  | Param q => Some (params q)
  | Ref f idx => look f (map (eval_index p renv) idx)
  | Arith op a b =>
      match exec_expr look p renv a, exec_expr look p renv b with
      | Some x, Some y => Some (vop op x y)
      | _, _ => None
      end
  | Reduce op init rmin rext body =>
      foldl (fun acc r =>
               match acc, exec_expr look p (r :: renv) body with
               | Some x, Some y => Some (vop op x y)
               | _, _ => None
               end)
        (Some (elit init)) (seqZ rmin rext)
  end.

(** The loops of a stage under a Schedule. *)
Definition stage_loops (sched : Schedule) (s : Stage) : list Loop :=
  loops_of (length (stage_vars s))
    (match sched !! stage_name s with
     | Some spec => transforms spec
     | None => []
     end).

(** The box of consumer points that share one materialisation of a
    producer of granularity [gr], when the consumer [s] is computed over
    the box [B] and is at the point [p]. *)
Definition box_for (sched : Schedule) (s : Stage) (gr : Granularity)
  (B : Region) (p : list Z) : Region :=
  match gr with
  | Root => B
  | AtLevel c l =>
      if decide (c = stage_name s) then tile (stage_loops sched s) l B p
      else B
  | Inlined => point_region p
  end.

(** Modelled from the spec: how an executed Schedule reads producer [f]
    at [idx] from the body of consumer [s] (the code generator that
    executes a Schedule is missing).  Glossary: granularity is "the loop
    level at which a Stage's values are (re)computed / kept
    materialized"; a Region is "the index range a Stage must produce to
    satisfy a consumer's request".  An inlined producer, like an input,
    is evaluated in place.  Any other producer is read from its buffer,
    which holds the Region required by the consumer's box at the storage
    level and has been filled over the Region required at the compute
    level; an index outside either is an out-of-bounds read, and the
    execution fails.  [produce R idx] computes the producer at [idx] as
    part of materialising [R]. *)
Definition read (sched : Schedule) (s : Stage) (B : Region) (p : list Z)
  (produce : Region -> list Z -> option V) (f : string) (idx : list Z)
  : option V :=
  match sched !! f with
  | None => produce (point_region idx) idx
  | Some spec =>
      match compute spec with
      | Inlined => produce (point_region idx) idx
      | gr =>
          match required_region s (box_for sched s (storage spec) B p) !! f,
                required_region s (box_for sched s gr B p) !! f with
          | Some stored, Some computed =>
              if in_regionb idx stored && in_regionb idx computed
              then produce computed idx
              else None
          | _, _ => None
          end
      end
  end.

(** Executing a pipeline under a Schedule: the value of stage [f] at
    point [p], computed as part of producing the box [B] of [f]. *)
Fixpoint exec_stage (sched : Schedule) (g : list Stage) (f : string)
  (B : Region) (p : list Z) : option V :=
  match g with
  | [] => Some (inputs f p)
  | s :: rest =>
      if decide (stage_name s = f)
      then exec_expr
             (fun f' idx =>
                read sched s B p (exec_stage sched rest f') f' idx)
             p [] (stage_body s)
      else exec_stage sched rest f B p
  end.
End Semantics.

(** ** Dependency graph, Parameters and the Estimate Store *)

(** Modelled from the spec: a Parameter, "a scalar or buffer input with a
    declared type and dimensionality"; a scalar has no dimension. *)
Record InputParameter := mkInputParameter {
  param_name : string;
  param_dims : list string
}.

(** Modelled from the spec: the dependency graph the front end hands to
    the scheduler, with the declarations of its Parameters and outputs. *)
Record Graph := mkGraph {
  stages : list Stage;
  parameters : list InputParameter;
  outputs : list string
}.

(** What an Estimate is an estimate of: the value of a scalar Parameter,
    or one dimension of a buffer Parameter or of a pipeline output. *)
Inductive EstimateKey :=
| ScalarOf (p : string)
| DimensionOf (owner dim : string).

#[global] Instance estimate_key_eq_dec : EqDecision EstimateKey.
Proof. solve_decision. Defined.

(** Modelled from the spec: the Estimate Store, which "holds
    user-supplied bounds estimates for pipeline inputs/outputs and scalar
    parameters". *)
Record EstimateStore := mkEstimateStore {
  bounds : gmap (string * string) Dim;
  scalars : gmap string Frontend.Scalar
}.

Definition has_estimate (est : EstimateStore) (k : EstimateKey) : bool :=
  match k with
  | ScalarOf p => bool_decide (is_Some (scalars est !! p))
  | DimensionOf o d => bool_decide (is_Some (bounds est !! (o, d)))
  end.

Definition parameter_keys (q : InputParameter) : list EstimateKey :=
  match param_dims q with
  | [] => [ScalarOf (param_name q)]
  | ds => map (DimensionOf (param_name q)) ds
  end.

Definition output_keys (g : Graph) (s : Stage) : list EstimateKey :=
  if bool_decide (stage_name s ∈ outputs g)
  then map (DimensionOf (stage_name s)) (stage_vars s)
  else [].

(** Modelled from the spec: the Estimates a scheduling run requires, one
    for "any Parameter or pipeline output", dimension by dimension. *)
Definition required_estimates (g : Graph) : list EstimateKey :=
  flat_map parameter_keys (parameters g) ++ flat_map (output_keys g) (stages g).

Definition missing_estimates (g : Graph) (est : EstimateStore)
  : list EstimateKey :=
  List.filter (fun k => negb (has_estimate est k)) (required_estimates g).

(** The stages that carry a ScheduleSpec before the search begins. *)
Definition partially_scheduled (g : Graph) (sched : Schedule) : list string :=
  map stage_name
    (List.filter (fun s => bool_decide (is_Some (sched !! stage_name s)))
       (stages g)).

(** Modelled from the spec: the fatal errors of section 7. *)
Inductive SchedulingError :=
| CyclicDefinitionError (stage : string)
| MissingEstimateError (missing : EstimateKey)
| PartiallyScheduledPipelineError (stage : string).

#[global] Instance scheduling_error_eq_dec : EqDecision SchedulingError.
Proof. solve_decision. Defined.

(** Modelled from the spec: the preconditions of section 4.4 (the checks
    of the auto-scheduler are missing), checked "before search begins".
    Section 7: "all fatal errors are surfaced to
    the caller ...; none are silently swallowed" - every violation is
    reported. *)
Definition validate (g : Graph) (est : EstimateStore) (sched : Schedule)
  : list SchedulingError :=
  map PartiallyScheduledPipelineError (partially_scheduled g sched)
  ++ map MissingEstimateError (missing_estimates g est).

(** The estimates a generator has recorded, as an Estimate Store; a later
    estimate of the same dimension replaces an earlier one. *)
Definition store_of (st : Frontend.GenState) : EstimateStore :=
  mkEstimateStore
    (map_fold
       (fun f bes acc =>
          foldl (fun acc be =>
                   <[(f, Frontend.be_var be) :=
                       mkDim (Frontend.be_min be) (Frontend.be_extent be)]> acc)
            acc bes)
       ∅ (Frontend.bounds_estimates st))
    (Frontend.scalar_estimates st).

(** ** Region context *)

(** The Region the estimates give a pipeline output. *)
Definition estimated_region (est : EstimateStore) (s : Stage) : Region :=
  map (fun v => default unit_dim (bounds est !! (stage_name s, v)))
    (stage_vars s).

Definition merge_regions (a b : gmap string Region) : gmap string Region :=
  union_with (fun r1 r2 => Some (hull_region r1 r2)) a b.

(** Every stage's Region, from the outputs toward the inputs: what a
    stage must produce is the union of what its consumers require. *)
Fixpoint propagate (ss : list Stage) (ctx : gmap string Region)
  : gmap string Region :=
  match ss with
  | [] => ctx
  | s :: rest =>
      match ctx !! stage_name s with
      | Some R => propagate rest (merge_regions (required_region s R) ctx)
      | None => propagate rest ctx
      end
  end.

Definition region_context (g : Graph) (est : EstimateStore)
  : gmap string Region :=
  propagate (stages g)
    (list_to_map
       (map (fun s => (stage_name s, estimated_region est s))
          (List.filter (fun s => bool_decide (stage_name s ∈ outputs g))
             (stages g)))).

(** ** Cost Model and Schedule Search (specification, sections 4.3, 4.4) *)

(** Modelled from the spec: "Cost = (compute_cost, memory_cost,
    parallel_efficiency_penalty)". *)
Record Cost := mkCost {
  compute_cost : Z;
  memory_cost : Z;
  parallel_efficiency_penalty : Z
}.

Definition total_cost (c : Cost) : Z :=
  compute_cost c + memory_cost c + parallel_efficiency_penalty c.

(** Modelled from the spec: what the specification names but leaves
    open, gathered in the "explicit configuration struct threaded through
    Search and Cost Model calls" of section 9: the Cost Model's
    [evaluate(schedule_candidate, region_context)], which consumer loop
    levels are relevant for a stage, the tie-break tolerance, the tile
    sizes tried, which dimension has a provable stride-1 access, and the
    native vector width of the target. *)
Record Planner := mkPlanner {
  evaluate : Frontend.MachineParams -> Schedule -> Stage -> Granularity ->
             gmap string Region -> Cost;
  relevant_levels : Schedule -> Stage -> list (string * nat);
  tolerance_percent : Z;
  tile_sizes : Frontend.MachineParams -> Stage -> Region -> list (nat * Z);
  stride1_dim : Stage -> option nat;
  native_vector_width : Z
}.



Definition empty_spec : ScheduleSpec :=
  mkScheduleSpec Root Root [] ∅ ∅.

(** The outermost dimensions, taken one after the other until the
    product of their extents reaches [need]. *)
Fixpoint outer_dims_until (need acc : Z) (dims : list (nat * Z)) : list nat :=
  match dims with
  | [] => []
  | (d, ext) :: rest =>
      if need <=? acc then []
      else d :: outer_dims_until need (acc * ext) rest
  end.

Section Search.
Variable pl : Planner.
Variable mp : Frontend.MachineParams.
Variable g : Graph.
Variable est : EstimateStore.

Definition stage_region (s : Stage) : Region :=
  default [] (region_context g est !! stage_name s).

(** Modelled from the spec: the "small fixed set of alternative
    granularities (root vs. compute-at-each-relevant-consumer-loop-level
    vs. inline)", coarsest first.  A pipeline output has no consumer and
    stays at root. *)
Definition candidates (fin : Schedule) (s : Stage) : list Granularity :=
  if bool_decide (stage_name s ∈ outputs g) then [Root]
  else Root :: map (fun cl => AtLevel cl.1 cl.2) (relevant_levels pl fin s)
            ++ [Inlined].

Definition cost_of (fin : Schedule) (s : Stage) (gr : Granularity) : Z :=
  total_cost (evaluate pl mp fin s gr (region_context g est)).

(** Modelled from the spec: the tie-break, "when two candidate
    granularities yield cost within a small relative tolerance, prefer
    the coarser-grained option": a finer candidate replaces the best so
    far only if it is cheaper by more than the tolerance. *)
Definition preferred (fin : Schedule) (s : Stage) (best cand : Granularity)
  : Granularity :=
  if cost_of fin s cand * (100 + tolerance_percent pl) <? cost_of fin s best * 100
  then cand else best.

Definition choose_granularity (fin : Schedule) (s : Stage) : Granularity :=
  match candidates fin s with
  | [] => Root
  | c :: cs => foldl (preferred fin s) c cs
  end.

Definition with_granularity (fin : Schedule) (s : Stage) (d : ScheduleSpec)
  : ScheduleSpec :=
  let gr := choose_granularity fin s in
  mkScheduleSpec gr gr (transforms d) (parallel_dims d) (vectorized_dims d).

(** An inlined stage has no loops of its own to transform. *)
Definition with_tiles (s : Stage) (d : ScheduleSpec) : ScheduleSpec :=
  if decide (compute d = Inlined) then d
  else mkScheduleSpec (storage d) (compute d)
         (map (fun t => TSplit t.1 t.2) (tile_sizes pl mp s (stage_region s)))
         (parallel_dims d) (vectorized_dims d).

(** Modelled from the spec: "choose the outermost dimension(s) whose
    combined extent estimate is >= parallelism". *)
Definition choose_parallel (s : Stage) : gset nat :=
  list_to_set
    (outer_dims_until (Frontend.parallelism mp) 1
       (map (fun d => (d, dextent (dim_at (stage_region s) d)))
          (rev (seq 0 (length (stage_vars s)))))).

Definition with_parallel (s : Stage) (d : ScheduleSpec) : ScheduleSpec :=
  if decide (compute d = Inlined) then d
  else mkScheduleSpec (storage d) (compute d) (transforms d)
         (choose_parallel s) (vectorized_dims d).

(** Modelled from the spec: vectorize the dimension with a provable
    stride-1 access by the native vector width; "if no such dimension
    exists, vectorization is skipped for that stage (not an error)". *)
Definition with_vector (s : Stage) (d : ScheduleSpec) : ScheduleSpec :=
  if decide (compute d = Inlined) then d
  else match stride1_dim pl s with
       | Some v =>
           mkScheduleSpec (storage d) (compute d) (transforms d)
             (parallel_dims d) {[v := native_vector_width pl]}
       | None => d
       end.





(** The ScheduleSpec the search gives a stage. *)
Definition schedule_stage (fin : Schedule) (s : Stage) : ScheduleSpec :=
  with_vector s (with_parallel s (with_tiles s
    (with_granularity fin s empty_spec))).

(** The search as a function: the stages in order, each finalized
    before the next begins. *)
Fixpoint search (ss : list Stage) (fin : Schedule) : Schedule :=
  match ss with
  | [] => fin
  | s :: rest => search rest (<[stage_name s := schedule_stage fin s]> fin)
  end.

(** What a scheduling run reports to its caller. *)
Inductive Outcome :=
| Scheduled
| Failed (errors : list SchedulingError).

(** Modelled from the spec: what [auto_schedule_outputs] does (only its
    calls are in the generators): one scheduling run on a pipeline whose
    schedule state is [sched].  A violated precondition fails the run
    before the search begins, and the schedule state is returned as it
    was. *)
Definition auto_schedule (sched : Schedule) : Outcome * Schedule :=
  match validate g est sched with
  | [] => (Scheduled, search (stages g) sched)
  | errors => (Failed errors, sched)
  end.

End Search.

(** ** A complete run: plan from the estimates, then execute *)

Section Run.
Context {V : Type} `{Elem V}.


End Run.

(** ** The dependency graphs of the two generators *)

Module Pipelines.

Definition X : Index := IVar 0.
Definition Y : Index := IVar 1.
Definition plus (i : Index) (c : Z) : Index := IAdd i (IConst c).
Definition minus (i : Index) (c : Z) : Index := ISub i (IConst c).

Definition add (a b : Expr) : Expr := Arith OpAdd a b.
Definition sub (a b : Expr) : Expr := Arith OpSub a b.
Definition mul (a b : Expr) : Expr := Arith OpMul a b.
Definition div (a b : Expr) : Expr := Arith OpDiv a b.
Definition float (m e : Z) : Expr := Const (Frontend.SFloat m e).
Definition int (z : Z) : Expr := Const (Frontend.SInt z).

(** *** [SimpleBlur::generate] *)

(** The trailing arguments the placeholder [_] stands for, [n] of them. *)
Definition implicit (n : nat) : list Index := map IVar (seq 2 n).

Definition blur_x_body (n : nat) : Expr :=
  div (add (add (Ref "in" (X :: Y :: implicit n))
                (Ref "in" (plus X 1 :: Y :: implicit n)))
           (Ref "in" (plus X 2 :: Y :: implicit n)))
      (int 3).

Definition output_body (n : nat) : Expr :=
  div (add (add (Ref "blur_x" (X :: Y :: implicit n))
                (Ref "blur_x" (X :: plus Y 1 :: implicit n)))
           (Ref "blur_x" (X :: plus Y 2 :: implicit n)))
      (int 3).

(** The graph of [SimpleBlur], outputs first.  The Func [in] that
    [repeat_edge] returns is an input of the graph. *)
Definition blur_graph (input_args implicit_args : list string) : Graph :=
  let vars := "x" :: "y" :: implicit_args in
  mkGraph
    [ mkStage "output" vars (output_body (length implicit_args));
      mkStage "blur_x" vars (blur_x_body (length implicit_args)) ]
    [ mkInputParameter "input" input_args;
      mkInputParameter "width" [];
      mkInputParameter "height" [] ]
    [ "output" ].

(** *** [AutoScheduled::generate] *)

Definition at2 (f : string) (i j : Index) : Expr := Ref f [i; j].

Definition sum3x3 (f : string) : Expr :=
  add (add (add (add (add (add (add (add
    (at2 f (minus X 1) (minus Y 1))
    (at2 f (minus X 1) Y))
    (at2 f (minus X 1) (plus Y 1)))
    (at2 f X (minus Y 1)))
    (at2 f X Y))
    (at2 f X (plus Y 1)))
    (at2 f (plus X 1) (minus Y 1)))
    (at2 f (plus X 1) Y))
    (at2 f (plus X 1) (plus Y 1)).

Definition twelfth (n : Z) : Expr := div (float (n * 10) (-1)) (int 12).
Definition neg_twelfth (n : Z) : Expr := div (float (- n * 10) (-1)) (int 12).

Definition gray_body : Expr :=
  add (add (mul (float 299 (-3)) (Ref "in_b" [X; Y; IConst 0]))
           (mul (float 587 (-3)) (Ref "in_b" [X; Y; IConst 1])))
      (mul (float 114 (-3)) (Ref "in_b" [X; Y; IConst 2])).

Definition Iy_body : Expr :=
  add (add (add (add (add
    (mul (at2 "gray" (minus X 1) (minus Y 1)) (neg_twelfth 1))
    (mul (at2 "gray" (minus X 1) (plus Y 1)) (twelfth 1)))
    (mul (at2 "gray" X (minus Y 1)) (neg_twelfth 2)))
    (mul (at2 "gray" X (plus Y 1)) (twelfth 2)))
    (mul (at2 "gray" (plus X 1) (minus Y 1)) (neg_twelfth 1)))
    (mul (at2 "gray" (plus X 1) (plus Y 1)) (twelfth 1)).

Definition Ix_body : Expr :=
  add (add (add (add (add
    (mul (at2 "gray" (minus X 1) (minus Y 1)) (neg_twelfth 1))
    (mul (at2 "gray" (plus X 1) (minus Y 1)) (twelfth 1)))
    (mul (at2 "gray" (minus X 1) Y) (neg_twelfth 2)))
    (mul (at2 "gray" (plus X 1) Y) (twelfth 2)))
    (mul (at2 "gray" (minus X 1) (plus Y 1)) (neg_twelfth 1)))
    (mul (at2 "gray" (plus X 1) (plus Y 1)) (twelfth 1)).

Definition harris_body : Expr :=
  sub (at2 "det" X Y)
      (mul (mul (float 4 (-2)) (at2 "trace" X Y)) (at2 "trace" X Y)).

Definition stage2 (name : string) (body : Expr) : Stage :=
  mkStage name ["x"; "y"] body.

(** The graph of [AutoScheduled], outputs first.  The Func [in_b] that
    [repeat_edge] returns is an input of the graph. *)
Definition harris_graph : Graph :=
  mkGraph
    [ stage2 "output2" (mul (Param "factor") (at2 "harris" (plus X 2) (plus Y 2)));
      stage2 "output1" (at2 "harris" (plus X 2) (plus Y 2));
      stage2 "harris" harris_body;
      stage2 "trace" (add (at2 "Sxx" X Y) (at2 "Syy" X Y));
      stage2 "det" (sub (mul (at2 "Sxx" X Y) (at2 "Syy" X Y))
                        (mul (at2 "Sxy" X Y) (at2 "Sxy" X Y)));
      stage2 "Sxy" (sum3x3 "Ixy");
      stage2 "Syy" (sum3x3 "Iyy");
      stage2 "Sxx" (sum3x3 "Ixx");
      stage2 "Ixy" (mul (at2 "Ix" X Y) (at2 "Iy" X Y));
      stage2 "Iyy" (mul (at2 "Iy" X Y) (at2 "Iy" X Y));
      stage2 "Ixx" (mul (at2 "Ix" X Y) (at2 "Ix" X Y));
      stage2 "Ix" Ix_body;
      stage2 "Iy" Iy_body;
      stage2 "gray" gray_body ]
    [ mkInputParameter "input" ["0"; "1"; "2"];
      mkInputParameter "factor" [] ]
    [ "output1"; "output2" ].

End Pipelines.

(** The input buffers and scalar Parameters of the two graphs, from the
    run-time data of the generators. *)
Section Bindings.
Context {V : Type} `{Elem V}.

Definition buffer3 (f : Z -> Z -> Z -> V) (p : list Z) : V :=
  f (coord p 0) (coord p 1) (coord p 2).

Definition harris_inputs (in_b : Z -> Z -> Z -> V) : string -> list Z -> V :=
  fun _ p => buffer3 in_b p.

Definition harris_params (factor : V) : string -> V :=
  fun _ => factor.

Definition blur_inputs (in_ : Z -> Z -> list Z -> V) : string -> list Z -> V :=
  fun _ p => in_ (coord p 0) (coord p 1) (drop 2 p).

Definition no_params : string -> V :=
  fun _ => elit (Frontend.SInt 0).
End Bindings.

End Scheduler.

(* ===================================================================== *)
(** * Concrete instances *)
(* ===================================================================== *)

(** A pipeline, two Estimate Stores, a planner and an element type to run
    the definitions on. *)
Module Samples.
Import Frontend Scheduler.

(** Integers as element type; a [float] literal is truncated. *)
Definition z_elem : Elem Z :=
  {| eadd := Z.add;
     esub := Z.sub;
     emul := Z.mul;
     ediv := Z.div;
     elit := fun c => match c with
                      | SInt z => z
                      | SFloat m e =>
                          if 0 <=? e then m * 10 ^ e else Z.quot m (10 ^ (- e))
                      end |}.

(** [SimpleBlur] as the build file instantiates it: [input.dim=3]. *)
Definition blur_input_args : list string := ["_0"; "_1"; "_2"].
Definition blur_implicit_args : list string := ["_0"].
Definition blur3 : Graph := Pipelines.blur_graph blur_input_args blur_implicit_args.

(** The generator state after [schedule()] with [estimate_only=true]. *)
Definition blur_estimated : GenState :=
  default initial
    (SimpleBlur.schedule false true blur_input_args blur_implicit_args initial).


(** A planner that prices every candidate alike, finds no consumer loop
    level relevant, tiles rows by 8 and vectorizes [x] by 8. *)
Definition flat_planner : Planner :=
  {| evaluate := fun _ _ _ _ _ => mkCost 1 1 0;
     relevant_levels := fun _ _ => [];
     tolerance_percent := 1;
     tile_sizes := fun _ _ _ => [(1%nat, 8)];
     stride1_dim := fun _ => Some 0%nat;
     native_vector_width := 8 |}.



End Samples.

(* ===================================================================== *)
(** * Properties of the Region Analyzer *)
(* ===================================================================== *)

Section RegionFacts.
Import Scheduler.

Lemma nth_map_lt {A B : Type} (f : A -> B) (l : list A) (d : nat) (x : A) (y : B) :
  (d < length l)%nat -> nth d (map f l) y = f (nth d l x).
Proof.
  revert d. induction l as [|a l IH]; intros [|d] Hd; simpl in *; try lia.
  - reflexivity.
  - apply IH. lia.
Qed.

Lemma in_dimb_spec c d : in_dimb c d = true <-> in_dim c d.
Proof.
  unfold in_dimb, in_dim.
  rewrite andb_true_iff, Z.leb_le, Z.ltb_lt. tauto.
Qed.

Lemma coord_overflow p d : (length p <= d)%nat -> coord p d = 0.
Proof. intros Hd. unfold coord. now apply nth_overflow. Qed.

Lemma dim_at_overflow R d : (length R <= d)%nat -> dim_at R d = unit_dim.
Proof. intros Hd. unfold dim_at. now apply nth_overflow. Qed.

Lemma in_unit_dim : in_dim 0 unit_dim.
Proof. unfold in_dim, unit_dim. simpl. lia. Qed.

Lemma in_regionb_spec p R : in_regionb p R = true <-> in_region p R.
Proof.
  unfold in_regionb, in_region. rewrite forallb_forall. split.
  - intros Hall d.
    destruct (Nat.lt_ge_cases d (Nat.max (length p) (length R))) as [Hlt | Hge].
    + apply in_dimb_spec, Hall, in_seq. lia.
    + rewrite coord_overflow, dim_at_overflow by lia. apply in_unit_dim.
  - intros Hall d _. apply in_dimb_spec, Hall.
Qed.

Lemma in_point_region p : in_region p (point_region p).
Proof.
  intros d. unfold in_dim, coord, dim_at, point_region.
  destruct (Nat.lt_ge_cases d (length p)) as [Hlt | Hge].
  - rewrite (nth_map_lt _ _ _ 0) by exact Hlt. simpl. lia.
  - rewrite !nth_overflow by (rewrite ?length_map; lia). simpl. lia.
Qed.

Lemma in_dim_of_bound c b : in_bound c b -> in_dim c (dim_of_bound b).
Proof. unfold in_bound, in_dim, dim_of_bound. simpl. lia. Qed.

Lemma in_bound_of_dim c d : in_dim c d -> in_bound c (bound_of_dim d).
Proof. unfold in_bound, in_dim, bound_of_dim. simpl. lia. Qed.

Lemma renv_within_nil : renv_within [] [].
Proof. intros [|k]; unfold in_bound, coord, bound_at; simpl; lia. Qed.

Lemma renv_within_cons r b renv rb :
  in_bound r b -> renv_within renv rb -> renv_within (r :: renv) (b :: rb).
Proof. intros Hr Hrest [|k]; [exact Hr | apply Hrest]. Qed.

(** Interval propagation bounds the concrete value of every access
    expression. *)
Lemma bound_index_sound p R renv rb i :
  in_region p R -> renv_within renv rb ->
  in_bound (eval_index p renv i) (bound_index R rb i).
Proof.
  intros Hp Hr. induction i as [d|k|c|a IHa b IHb|a IHa b IHb|c a IHa
                                |a IHa b IHb|a IHa b IHb]; simpl.
  - apply in_bound_of_dim, Hp.
  - apply Hr.
  - unfold in_bound; simpl; lia.
  - unfold in_bound in *; simpl; lia.
  - unfold in_bound in *; simpl; lia.
  - unfold in_bound in *. destruct IHa as [Hlo Hhi].
    destruct (Z.leb_spec 0 c); simpl; split.
    + now apply Z.mul_le_mono_nonneg_l.
    + now apply Z.mul_le_mono_nonneg_l.
    + apply Z.mul_le_mono_nonpos_l; lia.
    + apply Z.mul_le_mono_nonpos_l; lia.
  - unfold in_bound in *; simpl; lia.
  - unfold in_bound in *; simpl; lia.
Qed.

Lemma region_within_refl A : region_within A A.
Proof. intros d c Hc. exact Hc. Qed.

Lemma in_region_within p A B :
  in_region p A -> region_within A B -> in_region p B.
Proof. intros Hp HAB d. apply HAB, Hp. Qed.

Lemma hull_dim_unit : hull_dim unit_dim unit_dim = unit_dim.
Proof. reflexivity. Qed.

Lemma dim_at_hull A B d :
  dim_at (hull_region A B) d = hull_dim (dim_at A d) (dim_at B d).
Proof.
  unfold hull_region.
  destruct (Nat.lt_ge_cases d (Nat.max (length A) (length B))) as [Hlt | Hge].
  - unfold dim_at at 1.
    rewrite (nth_map_lt _ _ _ 0%nat) by (rewrite length_seq; exact Hlt).
    rewrite seq_nth by exact Hlt. reflexivity.
  - rewrite (dim_at_overflow _ d) by (rewrite length_map, length_seq; exact Hge).
    rewrite !dim_at_overflow by lia. reflexivity.
Qed.

Lemma in_hull_dim_l c a b : in_dim c a -> in_dim c (hull_dim a b).
Proof. unfold in_dim, hull_dim. simpl. lia. Qed.

Lemma in_hull_dim_r c a b : in_dim c b -> in_dim c (hull_dim a b).
Proof. unfold in_dim, hull_dim. simpl. lia. Qed.

Lemma hull_region_within_l A B : region_within A (hull_region A B).
Proof. intros d c Hc. rewrite dim_at_hull. now apply in_hull_dim_l. Qed.

Lemma hull_region_within_r A B : region_within B (hull_region A B).
Proof. intros d c Hc. rewrite dim_at_hull. now apply in_hull_dim_r. Qed.

(** Every site's Region lies within the union kept for its producer. *)
Lemma union_sites_covers ss f r :
  In (f, r) ss ->
  exists Rf, union_sites ss !! f = Some Rf /\ region_within r Rf.
Proof.
  induction ss as [|[g r'] rest IH]; intros Hin; [destruct Hin|].
  simpl. destruct Hin as [Heq | Hin].
  - inversion Heq; subst g r'. rewrite lookup_insert_eq.
    eexists; split; [reflexivity|].
    destruct (union_sites rest !! f);
      [apply hull_region_within_l | apply region_within_refl].
  - destruct (IH Hin) as (Rf & Hlook & Hwithin).
    destruct (decide (g = f)) as [->|Hne].
    + rewrite lookup_insert_eq, Hlook.
      eexists; split; [reflexivity|].
      intros d c Hc. apply hull_region_within_r, Hwithin, Hc.
    + rewrite lookup_insert_ne by exact Hne. eauto.
Qed.

(** The accessed index of a site lies in the Region computed for that
    site. *)
Lemma site_region_sound p R renv rb idx :
  in_region p R -> renv_within renv rb ->
  in_region (map (eval_index p renv) idx) (site_region R rb idx).
Proof.
  intros Hp Hr d. unfold site_region, coord, dim_at.
  destruct (Nat.lt_ge_cases d (length idx)) as [Hlt | Hge].
  - rewrite !(nth_map_lt _ _ _ (IConst 0)) by exact Hlt.
    now apply in_dim_of_bound, bound_index_sound.
  - rewrite !nth_overflow by (rewrite length_map; exact Hge).
    apply in_unit_dim.
Qed.

(** Every access has a reference site whose Region contains it. *)
Lemma accesses_sites p R e : forall renv rb f idx,
  in_region p R -> renv_within renv rb ->
  In (f, idx) (accesses p renv e) ->
  exists r, In (f, r) (sites R rb e) /\ in_region idx r.
Proof.
  induction e as [c|q|g ix|op a IHa b IHb|op init rmin rext body IH];
    intros renv rb f idx Hp Hr Hin; simpl in *.
  - destruct Hin.
  - destruct Hin.
  - destruct Hin as [Heq | []]. inversion Heq; subst.
    eexists; split; [left; reflexivity|]. now apply site_region_sound.
  - apply in_app_or in Hin. destruct Hin as [Hin | Hin].
    + destruct (IHa _ rb _ _ Hp Hr Hin) as (r & Hr1 & Hr2).
      exists r; split; [apply in_or_app; now left | exact Hr2].
    + destruct (IHb _ rb _ _ Hp Hr Hin) as (r & Hr1 & Hr2).
      exists r; split; [apply in_or_app; now right | exact Hr2].
  - apply in_flat_map in Hin. destruct Hin as (r0 & Hr0 & Hin).
    apply list_elem_of_In, elem_of_seqZ in Hr0.
    apply (IH (r0 :: renv) (mkBound rmin (rmin + rext - 1) :: rb) f idx Hp);
      [|exact Hin].
    apply renv_within_cons; [|exact Hr]. unfold in_bound; simpl; lia.
Qed.

(** Soundness of [required_region], in the form the execution model
    uses. *)
Lemma required_region_sound s R p f idx :
  in_region p R ->
  In (f, idx) (accesses p [] (stage_body s)) ->
  exists Rf, required_region s R !! f = Some Rf /\ in_region idx Rf.
Proof.
  intros Hp Hin.
  destruct (accesses_sites p R (stage_body s) [] [] f idx Hp renv_within_nil Hin)
    as (r & Hsite & Hidx).
  destruct (union_sites_covers _ _ _ Hsite) as (Rf & Hlook & Hwithin).
  exists Rf; split; [exact Hlook|]. now apply (in_region_within _ r).
Qed.

End RegionFacts.

(* ===================================================================== *)
(** * Executing a Schedule computes what the pipeline defines *)
(* ===================================================================== *)

Section ExecutionFacts.
Import Scheduler.

Lemma tile_dim_sound fixed d bd c :
  in_dim c bd -> in_dim c (tile_dim fixed d bd c).
Proof.
  intros Hc. unfold tile_dim.
  destruct (bool_decide (LWhole d ∈ fixed)); [unfold in_dim; simpl; lia|].
  destruct (outer_factor d fixed) as [k|]; [|exact Hc].
  destruct (bool_decide (LInner d k ∈ fixed)); [unfold in_dim; simpl; lia|].
  destruct (Z.ltb_spec 0 k) as [Hk|Hk]; [|exact Hc].
  unfold in_dim; simpl.
  pose proof (Z.mul_div_le (c - dmin bd) k Hk).
  pose proof (Z.mul_succ_div_gt (c - dmin bd) k Hk).
  lia.
Qed.

Lemma tile_sound ls l B p : in_region p B -> in_region p (tile ls l B p).
Proof.
  intros Hp d. unfold tile.
  destruct (Nat.lt_ge_cases d (Nat.max (length B) (length p))) as [Hlt | Hge].
  - unfold dim_at at 1.
    rewrite (nth_map_lt _ _ _ 0%nat) by (rewrite length_seq; exact Hlt).
    rewrite seq_nth by exact Hlt. apply tile_dim_sound, Hp.
  - rewrite dim_at_overflow by (rewrite length_map, length_seq; exact Hge).
    rewrite coord_overflow by lia. apply in_unit_dim.
Qed.

Section WithData.
Context {V : Type} `{Elem V}.
Variable params : string -> V.
Variable inputs : string -> list Z -> V.

Lemma box_for_sound sched s gr B p :
  in_region p B -> in_region p (box_for sched s gr B p).
Proof.
  intros Hp. destruct gr as [|c l|]; simpl.
  - exact Hp.
  - destruct (decide (c = stage_name s)); [now apply tile_sound | exact Hp].
  - apply in_point_region.
Qed.

(** If every read the expression performs succeeds with the value the
    pipeline defines, so does the expression. *)
Lemma exec_expr_eval look' look p e : forall renv,
  (forall f idx, In (f, idx) (accesses p renv e) ->
                 look' f idx = Some (look f idx)) ->
  exec_expr params look' p renv e
  = Some (eval_expr params look p renv e).
Proof.
  induction e as [c|q|g ix|op a IHa b IHb|op init rmin rext body IH];
    intros renv Hreads; simpl.
  - reflexivity.
  - reflexivity.
  - apply Hreads. simpl. now left.
  - rewrite IHa, IHb; [reflexivity| |];
      intros f idx Hin; apply Hreads; simpl; apply in_or_app; auto.
  - assert (Hbody : forall r, In r (seqZ rmin rext) ->
              exec_expr params look' p (r :: renv) body
              = Some (eval_expr params look p (r :: renv) body)).
    { intros r Hr. apply IH. intros f idx Hin. apply Hreads. simpl.
      apply in_flat_map. eauto. }
    generalize (elit init) as acc. revert Hbody.
    generalize (seqZ rmin rext) as rs.
    induction rs as [|r rs IHrs]; intros Hbody acc; simpl; [reflexivity|].
    rewrite Hbody by now left. apply IHrs.
    intros r' Hr'. apply Hbody. now right.
Qed.

(** Under any Schedule whatever, every stage is computed without an
    out-of-bounds read, and to the value the pipeline defines. *)
Lemma exec_stage_correct sched g : forall f B p,
  in_region p B ->
  exec_stage params inputs sched g f B p
  = Some (eval_stage params inputs g f p).
Proof.
  induction g as [|s rest IH]; intros f B p Hp; simpl; [reflexivity|].
  destruct (decide (stage_name s = f)) as [Hname|Hname]; [|now apply IH].
  apply exec_expr_eval. intros f' idx Hin. unfold read.
  destruct (sched !! f') as [spec|]; [|apply IH, in_point_region].
  assert (Hgr : forall gr, gr = compute spec ->
    match required_region s (box_for sched s (storage spec) B p) !! f',
          required_region s (box_for sched s gr B p) !! f' with
    | Some stored, Some computed =>
        if in_regionb idx stored && in_regionb idx computed
        then exec_stage params inputs sched rest f' computed idx
        else None
    | _, _ => None
    end = Some (eval_stage params inputs rest f' idx)).
  { intros gr _.
    destruct (required_region_sound s _ p f' idx
                (box_for_sound sched s (storage spec) B p Hp) Hin)
      as (Rs & -> & HRs).
    destruct (required_region_sound s _ p f' idx
                (box_for_sound sched s gr B p Hp) Hin)
      as (Rc & -> & HRc).
    apply in_regionb_spec in HRs; rewrite HRs.
    pose proof HRc as HRc'. apply in_regionb_spec in HRc'; rewrite HRc'.
    simpl. now apply IH. }
  destruct (compute spec) as [|c l|] eqn:Hc.
  - now apply Hgr.
  - now apply Hgr.
  - apply IH, in_point_region.
Qed.
End WithData.

End ExecutionFacts.

(* ===================================================================== *)
(** * The preconditions of a scheduling run *)
(* ===================================================================== *)

Section ValidationFacts.
Import Scheduler.

Lemma in_partially_scheduled g sched f :
  In f (partially_scheduled g sched) <->
  exists s, In s (stages g) /\ stage_name s = f /\ is_Some (sched !! f).
Proof.
  unfold partially_scheduled. rewrite in_map_iff. split.
  - intros (s & Hname & Hin). apply filter_In in Hin as [Hin Hsome].
    apply bool_decide_eq_true in Hsome. exists s. subst f. auto.
  - intros (s & Hin & Hname & Hsome). exists s. split; [exact Hname|].
    apply filter_In. split; [exact Hin|].
    apply bool_decide_eq_true. now rewrite Hname.
Qed.

Lemma in_missing_estimates g est k :
  In k (missing_estimates g est) <->
  In k (required_estimates g) /\ has_estimate est k = false.
Proof.
  unfold missing_estimates. rewrite filter_In, negb_true_iff. reflexivity.
Qed.

Lemma in_validate_partial g est sched f :
  In (PartiallyScheduledPipelineError f) (validate g est sched) <->
  In f (partially_scheduled g sched).
Proof.
  unfold validate. rewrite in_app_iff, !in_map_iff. split.
  - intros [(f' & Heq & Hin) | (k & Heq & _)]; [|discriminate].
    now inversion Heq; subst.
  - intros Hin. left. eauto.
Qed.

Lemma in_validate_missing g est sched k :
  In (MissingEstimateError k) (validate g est sched) <->
  In k (missing_estimates g est).
Proof.
  unfold validate. rewrite in_app_iff, !in_map_iff. split.
  - intros [(f & Heq & _) | (k' & Heq & Hin)]; [discriminate|].
    now inversion Heq; subst.
  - intros Hin. right. eauto.
Qed.

(** A run whose preconditions are violated reports every violation and
    hands the schedule state back untouched. *)
Lemma auto_schedule_invalid pl mp g est sched e :
  In e (validate g est sched) ->
  auto_schedule pl mp g est sched = (Failed (validate g est sched), sched).
Proof.
  intros Hin. unfold auto_schedule.
  destruct (validate g est sched); [destruct Hin | reflexivity].
Qed.

End ValidationFacts.

(* ===================================================================== *)
(** * The search is a deterministic state machine *)
(* ===================================================================== *)

Section SearchFacts.
Import Scheduler.
Variable pl : Planner.
Variable mp : Frontend.MachineParams.
Variable g : Graph.
Variable est : EstimateStore.









End SearchFacts.

(* ===================================================================== *)
(** * The graphs of the generators mean what the generators define *)
(* ===================================================================== *)

Section PipelineFacts.
Import Scheduler Scheduler.Pipelines.
Context {V : Type} `{Elem V}.

Lemma harris_graph_output1 (input : Z -> Z -> Z -> V)
  (repeat_edge : (Z -> Z -> Z -> V) -> Z -> Z -> Z -> V) (factor : V) x y :
  eval_stage (harris_params factor)
    (harris_inputs (Harris.in_b input repeat_edge))
    (stages harris_graph) "output1" [x; y]
  = Harris.output1 input repeat_edge x y.
Proof. reflexivity. Qed.

Lemma harris_graph_output2 (input : Z -> Z -> Z -> V)
  (repeat_edge : (Z -> Z -> Z -> V) -> Z -> Z -> Z -> V) (factor : V) x y :
  eval_stage (harris_params factor)
    (harris_inputs (Harris.in_b input repeat_edge))
    (stages harris_graph) "output2" [x; y]
  = Harris.output2 input factor repeat_edge x y.
Proof. reflexivity. Qed.

Lemma implicit_coords pre r :
  map (eval_index (pre ++ r) []) (map IVar (seq (length pre) (length r))) = r.
Proof.
  revert pre. induction r as [|c r IH]; intros pre; [reflexivity|].
  simpl. f_equal.
  - unfold coord. rewrite app_nth2, Nat.sub_diag by lia. reflexivity.
  - specialize (IH (pre ++ [c])).
    rewrite <- app_assoc, length_app, Nat.add_1_r in IH. exact IH.
Qed.

Lemma blur_graph_output (input : Z -> Z -> list Z -> V) width height
  (repeat_edge : (Z -> Z -> list Z -> V) -> list (Z * Z) -> Z -> Z -> list Z -> V)
  input_args implicit_args x y r :
  length r = length implicit_args ->
  eval_stage no_params
    (blur_inputs (SimpleBlur.in_ input width height repeat_edge))
    (stages (blur_graph input_args implicit_args)) "output" (x :: y :: r)
  = SimpleBlur.output input width height repeat_edge x y r.
Proof.
  intros Hlen.
  assert (Hrest : forall a b,
            map (eval_index (a :: b :: r) []) (implicit (length implicit_args)) = r).
  { intros a b. rewrite <- Hlen. apply (implicit_coords [a; b] r). }
  unfold SimpleBlur.output, SimpleBlur.blur_x, blur_inputs.
  cbn -[implicit]. rewrite !Hrest. reflexivity.
Qed.

End PipelineFacts.

(* ===================================================================== *)
(** * What the scheduling calls of a generator record *)
(* ===================================================================== *)

Section FrontendFacts.
Import Frontend.

Lemma estimates_of_estimate f v mn ext st f' :
  estimates_of (estimate f v mn ext st) f'
  = if decide (f = f')
    then estimates_of st f ++ [mkBoundsEstimate v mn ext]
    else estimates_of st f'.
Proof.
  unfold estimates_of, estimate. simpl.
  destruct (decide (f = f')) as [->|Hne].
  - now rewrite lookup_insert_eq.
  - now rewrite lookup_insert_ne.
Qed.

Lemma estimate_all_frame f ext vs : forall st,
  directives (estimate_all f ext vs st) = directives st
  /\ auto_schedule_calls (estimate_all f ext vs st) = auto_schedule_calls st
  /\ scalar_estimates (estimate_all f ext vs st) = scalar_estimates st.
Proof.
  induction vs as [|v vs IH]; intros st; simpl; [auto|].
  destruct (IH (estimate f v 0 ext st)) as (Hd & Ha & Hs).
  unfold estimate_all in *. now rewrite Hd, Ha, Hs.
Qed.

Lemma estimates_of_estimate_all f ext vs f' : forall st,
  estimates_of (estimate_all f ext vs st) f'
  = if decide (f = f')
    then estimates_of st f ++ map (fun v => mkBoundsEstimate v 0 ext) vs
    else estimates_of st f'.
Proof.
  induction vs as [|v vs IH]; intros st; simpl.
  - destruct (decide (f = f')) as [->|]; [now rewrite app_nil_r | reflexivity].
  - unfold estimate_all in *. rewrite IH, !estimates_of_estimate.
    destruct (decide (f = f')) as [->|Hne].
    + destruct (decide (f' = f')); [|congruence].
      now rewrite <- app_assoc.
    + destruct (decide (f = f')); [congruence | reflexivity].
Qed.

(** The loop over the trailing arguments reaches every one of them. *)
Lemma for_each_estimate_arg f args ext : forall n lo st,
  (lo + n = length args)%nat ->
  SimpleBlur.for_each (seq lo n) (SimpleBlur.estimate_arg f args ext) st
  = Some (estimate_all f ext (drop lo args) st).
Proof.
  induction n as [|n IH]; intros lo st Hlen; simpl.
  - rewrite drop_ge by lia. reflexivity.
  - unfold SimpleBlur.estimate_arg at 1.
    destruct (args !! lo) as [v|] eqn:Hv.
    + rewrite (drop_S _ _ _ Hv). simpl. apply IH. lia.
    + apply lookup_ge_None in Hv. lia.
Qed.

Lemma for_range_estimate_arg f args ext st :
  SimpleBlur.for_range 2 (length args) (SimpleBlur.estimate_arg f args ext) st
  = Some (estimate_all f ext (drop 2 args) st).
Proof.
  unfold SimpleBlur.for_range.
  destruct (Nat.le_gt_cases 2 (length args)) as [Hge | Hlt].
  - apply for_each_estimate_arg. lia.
  - replace (length args - 2)%nat with 0%nat by lia. simpl.
    rewrite drop_ge by lia. reflexivity.
Qed.

(** The state [set_estimates] reaches when [input] has at least two
    arguments. *)
Lemma set_estimates_result a0 a1 rest implicit_args st :
  SimpleBlur.set_estimates (a0 :: a1 :: rest) implicit_args st
  = Some
      (estimate_all "output" SimpleBlur.C implicit_args
         (estimate "output" "y" 0 SimpleBlur.H
            (estimate "output" "x" 0 SimpleBlur.W
               (set_estimate "height" (SInt SimpleBlur.H)
                  (set_estimate "width" (SInt SimpleBlur.W)
                     (estimate_all "input" SimpleBlur.C rest
                        (estimate "input" a1 0 SimpleBlur.H
                           (estimate "input" a0 0 SimpleBlur.W st)))))))).
Proof.
  unfold SimpleBlur.set_estimates. simpl.
  change (S (S (length rest))) with (length (a0 :: a1 :: rest)).
  rewrite for_range_estimate_arg. simpl.
  change (S (S (length implicit_args)))
    with (length (SimpleBlur.output_args implicit_args)).
  rewrite for_range_estimate_arg. reflexivity.
Qed.

End FrontendFacts.

(* ===================================================================== *)
(** * The generators *)
(* ===================================================================== *)

Section GeneratorClaims.
Import Frontend.

(** C9.  In [AutoScheduled], both outputs sample [harris(x + 2, y + 2)],
    and [output2] is [factor] times [output1] at every coordinate, for
    every input image and every value of [factor]. *)
Theorem output2_is_factor_times_output1 {F : Type} `{Elem F}
  (input : Z -> Z -> Z -> F) (factor : F)
  (repeat_edge : (Z -> Z -> Z -> F) -> Z -> Z -> Z -> F) (x y : Z) :
  Harris.output1 input repeat_edge x y
    = Harris.harris input repeat_edge (x + 2) (y + 2)
  /\ Harris.output2 input factor repeat_edge x y
    = emul factor (Harris.harris input repeat_edge (x + 2) (y + 2))
  /\ Harris.output2 input factor repeat_edge x y
    = emul factor (Harris.output1 input repeat_edge x y).
Proof. repeat split. Qed.

Lemma blur_estimates_cons a0 a1 rest :
  blur_estimates (a0 :: a1 :: rest)
  = mkBoundsEstimate a0 0 SimpleBlur.W :: mkBoundsEstimate a1 0 SimpleBlur.H
      :: map (fun v => mkBoundsEstimate v 0 SimpleBlur.C) rest.
Proof.
  unfold blur_estimates. simpl. rewrite Nat.sub_0_r. do 2 f_equal.
  induction rest as [|v rest IH]; simpl; [reflexivity | now rewrite IH].
Qed.

(** C10.  With [estimate_only=true] and [auto_schedule=false],
    [SimpleBlur::schedule] records the bounds estimates of [input] and
    [output] and the estimates of [width] and [height], and nothing else:
    no Func receives a scheduling directive and the auto-scheduler is not
    called.  ([input] has the two dimensions [generate] indexes it
    with.) *)
Theorem estimate_only_leaves_schedules_default
  (input_args implicit_args : list string) (st : GenState) :
  (2 <= length input_args)%nat ->
  exists st',
    SimpleBlur.schedule false true input_args implicit_args st = Some st'
    /\ directives st' = directives st
    /\ (forall f, schedule_of st' f = schedule_of st f)
    /\ auto_schedule_calls st' = auto_schedule_calls st
    /\ estimates_of st' "input"
       = estimates_of st "input" ++ blur_estimates input_args
    /\ estimates_of st' "output"
       = estimates_of st "output"
           ++ blur_estimates (SimpleBlur.output_args implicit_args)
    /\ scalar_estimates st' !! "width" = Some (SInt SimpleBlur.W)
    /\ scalar_estimates st' !! "height" = Some (SInt SimpleBlur.H).
Proof.
  intros Hlen.
  destruct input_args as [|a0 [|a1 rest]]; simpl in Hlen; try lia.
  unfold SimpleBlur.schedule. simpl. rewrite set_estimates_result. simpl.
  eexists. split; [reflexivity|].
  set (st1 := estimate "input" a1 0 SimpleBlur.H
                (estimate "input" a0 0 SimpleBlur.W st)).
  set (st2 := estimate_all "input" SimpleBlur.C rest st1).
  set (st3 := estimate "output" "y" 0 SimpleBlur.H
                (estimate "output" "x" 0 SimpleBlur.W
                   (set_estimate "height" (SInt SimpleBlur.H)
                      (set_estimate "width" (SInt SimpleBlur.W) st2)))).
  destruct (estimate_all_frame "input" SimpleBlur.C rest st1)
    as (Hd2 & Ha2 & Hs2).
  destruct (estimate_all_frame "output" SimpleBlur.C implicit_args st3)
    as (Hd3 & Ha3 & Hs3).
  fold st2 in Hd2, Ha2, Hs2.
  assert (Hdir : directives (estimate_all "output" SimpleBlur.C implicit_args st3)
                 = directives st).
  { rewrite Hd3. subst st3. simpl. rewrite Hd2. reflexivity. }
  split; [exact Hdir|].
  split; [intros f; unfold schedule_of; now rewrite Hdir|].
  split; [rewrite Ha3; subst st3; simpl; rewrite Ha2; reflexivity|].
  split.
  { rewrite estimates_of_estimate_all. simpl. subst st3.
    rewrite !estimates_of_estimate. simpl.
    unfold estimates_of at 1. simpl. fold (estimates_of st2 "input").
    subst st2. rewrite estimates_of_estimate_all. simpl. subst st1.
    rewrite !estimates_of_estimate. simpl.
    rewrite blur_estimates_cons, <- !app_assoc. reflexivity. }
  split.
  { rewrite estimates_of_estimate_all. simpl. subst st3.
    rewrite !estimates_of_estimate. simpl.
    unfold estimates_of at 1. simpl. fold (estimates_of st2 "output").
    subst st2. rewrite estimates_of_estimate_all. simpl. subst st1.
    rewrite !estimates_of_estimate. simpl.
    unfold SimpleBlur.output_args.
    rewrite blur_estimates_cons, <- !app_assoc. reflexivity. }
  rewrite Hs3. subst st3. simpl. rewrite Hs2.
  split; [|apply lookup_insert_eq].
  rewrite lookup_insert_ne by discriminate. apply lookup_insert_eq.
Qed.

Lemma estimate_only_leaves_schedules_default_witness :
  (2 <= length Samples.blur_input_args)%nat
  /\ exists st',
    SimpleBlur.schedule false true Samples.blur_input_args
      Samples.blur_implicit_args initial = Some st'
    /\ directives st' = directives initial
    /\ (forall f, schedule_of st' f = schedule_of initial f)
    /\ auto_schedule_calls st' = auto_schedule_calls initial
    /\ estimates_of st' "input"
       = estimates_of initial "input" ++ blur_estimates Samples.blur_input_args
    /\ estimates_of st' "output"
       = estimates_of initial "output"
           ++ blur_estimates (SimpleBlur.output_args Samples.blur_implicit_args)
    /\ scalar_estimates st' !! "width" = Some (SInt SimpleBlur.W)
    /\ scalar_estimates st' !! "height" = Some (SInt SimpleBlur.H).
Proof.
  split; [simpl; lia|].
  apply (estimate_only_leaves_schedules_default Samples.blur_input_args
           Samples.blur_implicit_args initial).
  simpl; lia.
Defined.

(** The machine parameters the tutorial passes: the cache size is the
    product [16 * 1024 * 1024]. *)
Lemma tutorial_machine_params :
  Harris.machine_params = mkMachineParams 32 16777216 40.
Proof. reflexivity. Qed.

(** [AutoScheduled::schedule] never mixes the two ways of scheduling: the
    branch that asks for auto-scheduling applies no directive, and the
    branch that applies directives does not ask for auto-scheduling. *)
Lemma tutorial_schedule_branches (st : GenState) :
  (directives (Harris.schedule true st) = directives st
   /\ auto_schedule_calls (Harris.schedule true st)
      = auto_schedule_calls st ++ [Some Harris.machine_params])
  /\ (auto_schedule_calls (Harris.schedule false st) = auto_schedule_calls st
      /\ schedule_of (Harris.schedule false st) "gray"
         = schedule_of st "gray" ++ [ComputeRoot]).
Proof.
  repeat split. unfold schedule_of, Harris.schedule, apply_directive. simpl.
  rewrite !lookup_insert_ne by discriminate. now rewrite lookup_insert_eq.
Qed.

(** The hand-written schedule of [SimpleBlur], applied when neither
    generator parameter is set. *)
Lemma simple_blur_manual_schedule (input_args implicit_args : list string) :
  exists st',
    SimpleBlur.schedule false false input_args implicit_args initial = Some st'
    /\ schedule_of st' "output"
       = [Split "y" "y" "yi" 8; Parallel "y"; Vectorize "x" 8]
    /\ schedule_of st' "blur_x"
       = [StoreAt (mkLoopLevel "output" "y");
          ComputeAt (mkLoopLevel "output" "yi"); Vectorize "x" 8]
    /\ auto_schedule_calls st' = []
    /\ bounds_estimates st' = ∅.
Proof. eexists. split; [reflexivity|]. vm_compute. auto. Qed.

End GeneratorClaims.

(* ===================================================================== *)
(** * The scheduler *)
(* ===================================================================== *)

Section SchedulerClaims.
Import Frontend Scheduler.



(** C2.  If a stage of the graph already carries a ScheduleSpec when
    auto-scheduling begins, the run fails, reports
    [PartiallyScheduledPipelineError] for that stage to the caller, and
    leaves the schedule state exactly as it was. *)
Theorem partially_scheduled_pipeline_is_rejected
  (pl : Planner) (mp : MachineParams) (g : Graph) (est : EstimateStore)
  (sched : Schedule) (s : Stage) :
  In s (stages g) ->
  is_Some (sched !! stage_name s) ->
  exists errors,
    auto_schedule pl mp g est sched = (Failed errors, sched)
    /\ In (PartiallyScheduledPipelineError (stage_name s)) errors.
Proof.
  intros Hs Hsome.
  assert (Hin : In (PartiallyScheduledPipelineError (stage_name s))
                  (validate g est sched)).
  { apply in_validate_partial, in_partially_scheduled. eauto. }
  exists (validate g est sched). split; [|exact Hin].
  now apply (auto_schedule_invalid pl mp g est sched _ Hin).
Qed.

Lemma partially_scheduled_pipeline_is_rejected_witness :
  let blur_x := mkStage "blur_x" ["x"; "y"; "_0"] (Pipelines.blur_x_body 1) in
  let manual : Schedule :=
    {[ "blur_x" := mkScheduleSpec (AtLevel "output" 1) (AtLevel "output" 2)
                     [] ∅ {[ 0%nat := 8 ]} ]} in
  In blur_x (stages Samples.blur3)
  /\ is_Some (manual !! stage_name blur_x)
  /\ exists errors,
       auto_schedule Samples.flat_planner Harris.machine_params Samples.blur3
         (store_of Samples.blur_estimated) manual = (Failed errors, manual)
       /\ In (PartiallyScheduledPipelineError "blur_x") errors.
Proof.
  intros blur_x manual.
  assert (Hs : In blur_x (stages Samples.blur3)) by (simpl; auto).
  assert (Hsome : is_Some (manual !! stage_name blur_x))
    by (vm_compute; eauto).
  split; [exact Hs|]. split; [exact Hsome|].
  exact (partially_scheduled_pipeline_is_rejected Samples.flat_planner
           Harris.machine_params Samples.blur3
           (store_of Samples.blur_estimated) manual blur_x Hs Hsome).
Defined.

(** C6.  If a Parameter or a pipeline output lacks a required Estimate -
    be it a single dimension of one output - the run fails with a
    [MissingEstimateError] that names it, leaves the schedule state as it
    was, and the [MissingEstimateError]s reported name exactly the
    required Estimates that are missing. *)
Theorem missing_estimate_is_rejected
  (pl : Planner) (mp : MachineParams) (g : Graph) (est : EstimateStore)
  (sched : Schedule) (k : EstimateKey) :
  In k (required_estimates g) ->
  has_estimate est k = false ->
  exists errors,
    auto_schedule pl mp g est sched = (Failed errors, sched)
    /\ In (MissingEstimateError k) errors
    /\ (forall k', In (MissingEstimateError k') errors <->
                   In k' (required_estimates g) /\ has_estimate est k' = false).
Proof.
  intros Hreq Hmiss.
  assert (Hin : In (MissingEstimateError k) (validate g est sched)).
  { apply in_validate_missing, in_missing_estimates. auto. }
  exists (validate g est sched). split; [|split; [exact Hin|]].
  - now apply (auto_schedule_invalid pl mp g est sched _ Hin).
  - intros k'. rewrite in_validate_missing. apply in_missing_estimates.
Qed.

Lemma missing_estimate_is_rejected_witness :
  let est := mkEstimateStore
               (delete ("output", "y") (bounds (store_of Samples.blur_estimated)))
               (scalars (store_of Samples.blur_estimated)) in
  In (DimensionOf "output" "y") (required_estimates Samples.blur3)
  /\ has_estimate est (DimensionOf "output" "y") = false
  /\ auto_schedule Samples.flat_planner Harris.machine_params Samples.blur3
       est ∅ = (Failed [MissingEstimateError (DimensionOf "output" "y")], ∅).
Proof.
  intros est.
  assert (Hreq : In (DimensionOf "output" "y") (required_estimates Samples.blur3))
    by (vm_compute; auto 10).
  assert (Hmiss : has_estimate est (DimensionOf "output" "y") = false)
    by (vm_compute; reflexivity).
  split; [exact Hreq|]. split; [exact Hmiss|].
  destruct (missing_estimate_is_rejected Samples.flat_planner
              Harris.machine_params Samples.blur3 est ∅ _ Hreq Hmiss)
    as (errors & Hrun & _ & _).
  rewrite Hrun. f_equal.
  assert (Hv : validate Samples.blur3 est ∅
               = [MissingEstimateError (DimensionOf "output" "y")])
    by (vm_compute; reflexivity).
  unfold auto_schedule in Hrun. rewrite Hv in Hrun. now inversion Hrun.
Defined.






(** The estimates the two generators record satisfy the preconditions of
    the scheduler on their own graphs. *)
Lemma tutorial_estimates_complete :
  validate Pipelines.harris_graph (store_of (Harris.schedule true initial)) ∅
  = [].
Proof. vm_compute. reflexivity. Qed.

Lemma simple_blur_estimates_complete :
  validate Samples.blur3 (store_of Samples.blur_estimated) ∅ = [].
Proof. vm_compute. reflexivity. Qed.

(** Whatever Schedule is executed, the outputs of [AutoScheduled] are the
    values [generate] defines. *)
Lemma harris_outputs_under_any_schedule {V : Type} `{Elem V}
  (input : Z -> Z -> Z -> V)
  (repeat_edge : (Z -> Z -> Z -> V) -> Z -> Z -> Z -> V) (factor : V)
  (sched : Schedule) (B : Region) (x y : Z) :
  in_region [x; y] B ->
  exec_stage (harris_params factor)
    (harris_inputs (Harris.in_b input repeat_edge)) sched
    (stages Pipelines.harris_graph) "output1" B [x; y]
  = Some (Harris.output1 input repeat_edge x y)
  /\ exec_stage (harris_params factor)
       (harris_inputs (Harris.in_b input repeat_edge)) sched
       (stages Pipelines.harris_graph) "output2" B [x; y]
     = Some (Harris.output2 input factor repeat_edge x y).
Proof.
  intros Hp. rewrite !(exec_stage_correct _ _ _ _ _ _ _ Hp).
  now rewrite harris_graph_output1, harris_graph_output2.
Qed.

End SchedulerClaims.


(* ===================================================================== *)
(** * Further properties of [SimpleBlur::schedule] *)
(* ===================================================================== *)

Section SimpleBlurScheduleFacts.
Import Frontend.

(** The estimates [set_estimates] adds to [input] and [output], and what
    it leaves alone. *)
Lemma set_estimates_effect a0 a1 rest implicit_args st :
  exists st',
    SimpleBlur.set_estimates (a0 :: a1 :: rest) implicit_args st = Some st'
    /\ directives st' = directives st
    /\ auto_schedule_calls st' = auto_schedule_calls st
    /\ scalar_estimates st'
       = <["height" := SInt SimpleBlur.H]>
           (<["width" := SInt SimpleBlur.W]> (scalar_estimates st))
    /\ (forall f,
          estimates_of st' f
          = if decide (f = "input")
            then estimates_of st f ++ blur_estimates (a0 :: a1 :: rest)
            else if decide (f = "output")
            then estimates_of st f
                   ++ blur_estimates (SimpleBlur.output_args implicit_args)
            else estimates_of st f).
Proof.
  rewrite set_estimates_result. eexists. split; [reflexivity|].
  set (st1 := estimate "input" a1 0 SimpleBlur.H
                (estimate "input" a0 0 SimpleBlur.W st)).
  set (st2 := estimate_all "input" SimpleBlur.C rest st1).
  set (st3 := estimate "output" "y" 0 SimpleBlur.H
                (estimate "output" "x" 0 SimpleBlur.W
                   (set_estimate "height" (SInt SimpleBlur.H)
                      (set_estimate "width" (SInt SimpleBlur.W) st2)))).
  destruct (estimate_all_frame "input" SimpleBlur.C rest st1)
    as (Hd2 & Ha2 & Hs2).
  destruct (estimate_all_frame "output" SimpleBlur.C implicit_args st3)
    as (Hd3 & Ha3 & Hs3).
  fold st2 in Hd2, Ha2, Hs2.
  split; [rewrite Hd3; subst st3; simpl; now rewrite Hd2|].
  split; [rewrite Ha3; subst st3; simpl; now rewrite Ha2|].
  split; [rewrite Hs3; subst st3; simpl; now rewrite Hs2|].
  intros f. rewrite estimates_of_estimate_all. subst st3.
  rewrite !estimates_of_estimate.
  assert (Hscal : forall g,
            estimates_of (set_estimate "height" (SInt SimpleBlur.H)
                            (set_estimate "width" (SInt SimpleBlur.W) st2)) g
            = estimates_of st2 g) by reflexivity.
  rewrite !Hscal. subst st2. rewrite !estimates_of_estimate_all. subst st1.
  rewrite !estimates_of_estimate.
  unfold SimpleBlur.output_args. rewrite !blur_estimates_cons.
  destruct (decide (f = "input")) as [->|Hin].
  - destruct (decide ("output" = "input")) as [Hbad|_]; [discriminate Hbad|].
    destruct (decide ("input" = "input")) as [_|Hbad]; [|congruence].
    rewrite <- !app_assoc. reflexivity.
  - destruct (decide ("input" = f)) as [Hbad|_]; [congruence|].
    destruct (decide (f = "output")) as [->|Hout].
    + destruct (decide ("output" = "output")) as [_|Hbad]; [|congruence].
      destruct (decide ("input" = "output")) as [Hbad|_]; [discriminate Hbad|].
      rewrite <- !app_assoc. reflexivity.
    + destruct (decide ("output" = f)) as [Hbad|_]; [congruence|].
      reflexivity.
Qed.


(** The loop [for (i = lo; i < hi; ++i) f.estimate(args[i], 0, ext)]
    fails exactly when its range is not empty and reaches past the end
    of [args]. *)
Lemma for_each_estimate_arg_fails f args ext : forall n lo st,
  SimpleBlur.for_each (seq lo n) (SimpleBlur.estimate_arg f args ext) st = None
  <-> (0 < n /\ length args < lo + n)%nat.
Proof.
  induction n as [|n IH]; intros lo st; simpl.
  - split; [discriminate | lia].
  - unfold SimpleBlur.estimate_arg at 1.
    destruct (args !! lo) as [v|] eqn:Hv.
    + apply lookup_lt_Some in Hv. rewrite IH. split.
      * intros [Hn Hlen]. lia.
      * intros [_ Hlen]. destruct n as [|n]; lia.
    + apply lookup_ge_None in Hv. split; [intros _; lia | reflexivity].
Qed.

(** X2.  The estimating loops of [SimpleBlur::schedule] stay within bounds:
    a loop [for (i = lo; i < hi; ++i) f.estimate(f.args()[i], 0, ext)]
    fails exactly when its range is not empty and ends past [args()];
    run up to [args().size()], as in the source, it never fails, and it
    estimates exactly the arguments from [lo] on, in order, leaving
    every other Func, the scalar estimates, the directives and the
    auto-schedule requests alone. *)
Theorem estimate_loop_stays_in_bounds
  (f : string) (args : list string) (ext : Z) (lo hi : nat) (st : GenState) :
  (SimpleBlur.for_range lo hi (SimpleBlur.estimate_arg f args ext) st = None
   <-> (lo < hi /\ length args < hi)%nat)
  /\ exists st',
       SimpleBlur.for_range lo (length args)
         (SimpleBlur.estimate_arg f args ext) st = Some st'
       /\ estimates_of st' f
          = estimates_of st f
              ++ map (fun v => mkBoundsEstimate v 0 ext) (drop lo args)
       /\ (forall f', f' <> f -> estimates_of st' f' = estimates_of st f')
       /\ scalar_estimates st' = scalar_estimates st
       /\ directives st' = directives st
       /\ auto_schedule_calls st' = auto_schedule_calls st.
Proof.
  split.
  - unfold SimpleBlur.for_range. rewrite for_each_estimate_arg_fails. lia.
  - exists (estimate_all f ext (drop lo args) st).
    destruct (estimate_all_frame f ext (drop lo args) st) as (Hd & Ha & Hs).
    split; [|split; [|split; [|repeat split; assumption]]].
    + unfold SimpleBlur.for_range.
      destruct (Nat.le_gt_cases lo (length args)) as [Hle | Hgt].
      * apply for_each_estimate_arg. lia.
      * replace (length args - lo)%nat with 0%nat by lia. simpl.
        rewrite drop_ge by lia. reflexivity.
    + rewrite estimates_of_estimate_all.
      destruct (decide (f = f)); [reflexivity | congruence].
    + intros f' Hne. rewrite estimates_of_estimate_all.
      destruct (decide (f = f')); [congruence | reflexivity].
Qed.

(** X3.  [SimpleBlur::schedule] keeps the two ways of scheduling apart.  When
    it asks for auto-scheduling it has applied no directive, and it asks
    once, with the default machine parameters; when it applies its
    hand-written directives it asks for nothing and records no estimate. *)
Theorem simple_blur_schedule_modes
  (auto_schedule estimate_only : bool)
  (input_args implicit_args : list string) (st st' : GenState) :
  SimpleBlur.schedule auto_schedule estimate_only input_args implicit_args st
    = Some st' ->
  (auto_schedule = true ->
     directives st' = directives st
     /\ auto_schedule_calls st' = auto_schedule_calls st ++ [None])
  /\ (auto_schedule = false ->
        auto_schedule_calls st' = auto_schedule_calls st)
  /\ (auto_schedule || estimate_only = true ->
        directives st' = directives st)
  /\ (auto_schedule || estimate_only = false ->
        bounds_estimates st' = bounds_estimates st
        /\ scalar_estimates st' = scalar_estimates st).
Proof.
  unfold SimpleBlur.schedule. intros Hrun.
  destruct (auto_schedule || estimate_only) eqn:Hflags.
  - destruct input_args as [|a0 [|a1 rest]]; try discriminate Hrun.
    destruct (set_estimates_effect a0 a1 rest implicit_args st)
      as (st1 & Hset & Hd & Ha & _).
    rewrite Hset in Hrun. simpl in Hrun.
    destruct auto_schedule; inversion Hrun; subst st'; simpl;
      repeat split; try discriminate; try congruence.
  - apply orb_false_elim in Hflags as [-> ->].
    inversion Hrun; subst st'.
    repeat split; try discriminate; reflexivity.
Qed.

Lemma simple_blur_schedule_modes_witness :
  exists st',
    SimpleBlur.schedule true false Samples.blur_input_args
      Samples.blur_implicit_args initial = Some st'
    /\ directives st' = directives initial
    /\ auto_schedule_calls st' = auto_schedule_calls initial ++ [None].
Proof.
  eexists. split; [reflexivity|].
  refine (proj1 (simple_blur_schedule_modes true false Samples.blur_input_args
                   Samples.blur_implicit_args initial _ _) _);
    reflexivity.
Defined.

(** With [auto_schedule] set, [estimate_only] makes no difference:
    [SimpleBlur::schedule] does what it does for [estimate_only] alone and
    then files one auto-schedule request. *)
Theorem simple_blur_auto_schedule_is_estimate_then_request
  (estimate_only : bool) (input_args implicit_args : list string)
  (st : GenState) :
  SimpleBlur.schedule true estimate_only input_args implicit_args st
  = option_map (auto_schedule_outputs None)
      (SimpleBlur.schedule false true input_args implicit_args st).
Proof.
  unfold SimpleBlur.schedule. simpl.
  destruct (SimpleBlur.set_estimates input_args implicit_args st); reflexivity.
Qed.

(** X4.  The hand-written schedule of [SimpleBlur] (neither parameter set)
    never fails, whatever the arguments of [input]; it appends three
    directives to [output] and three to [blur_x], touches the directives
    of no other Func, and records no estimate and no request. *)
Theorem simple_blur_manual_branch
  (input_args implicit_args : list string) (st : GenState) :
  exists st',
    SimpleBlur.schedule false false input_args implicit_args st = Some st'
    /\ schedule_of st' "output"
       = schedule_of st "output"
           ++ [Split "y" "y" "yi" 8; Parallel "y"; Vectorize "x" 8]
    /\ schedule_of st' "blur_x"
       = schedule_of st "blur_x"
           ++ [StoreAt (mkLoopLevel "output" "y");
               ComputeAt (mkLoopLevel "output" "yi"); Vectorize "x" 8]
    /\ (forall f, f <> "output" -> f <> "blur_x" ->
          schedule_of st' f = schedule_of st f)
    /\ bounds_estimates st' = bounds_estimates st
    /\ scalar_estimates st' = scalar_estimates st
    /\ auto_schedule_calls st' = auto_schedule_calls st.
Proof.
  eexists. split; [reflexivity|].
  unfold SimpleBlur.manual_schedule, schedule_of, apply_directive. simpl.
  repeat split.
  - rewrite !lookup_insert_ne by discriminate.
    rewrite !lookup_insert_eq. simpl. rewrite <- !app_assoc. reflexivity.
  - rewrite !lookup_insert_eq. simpl.
    rewrite !lookup_insert_ne by discriminate.
    rewrite <- !app_assoc. reflexivity.
  - intros f Hout Hblur. rewrite !lookup_insert_ne by congruence. reflexivity.
Qed.

Lemma map_be_var_blur_estimates a0 a1 rest :
  map be_var (blur_estimates (a0 :: a1 :: rest)) = a0 :: a1 :: rest.
Proof.
  rewrite blur_estimates_cons. simpl. do 2 f_equal.
  rewrite map_map. simpl. apply map_id.
Qed.

Lemma blur_estimates_positive a0 a1 rest :
  Forall (fun be => be_min be = 0 /\ 0 < be_extent be)
    (blur_estimates (a0 :: a1 :: rest)).
Proof.
  rewrite blur_estimates_cons.
  repeat (apply Forall_cons; split; [simpl; split; [reflexivity | reflexivity]|]).
  apply Forall_forall. intros be Hbe.
  apply list_elem_of_In, in_map_iff in Hbe as (v & <- & _).
  simpl. split; reflexivity.
Qed.

(** X5.  Whenever [SimpleBlur::schedule] records estimates, it estimates every
    dimension of [input] and of [output] exactly once and in order - the
    arguments of [input], and [x], [y] and the implicit arguments of
    [output] - each from 0 with a positive extent, and it estimates both
    [width] and [height]. *)
Theorem simple_blur_estimates_every_dimension
  (auto_schedule estimate_only : bool)
  (input_args implicit_args : list string) (st st' : GenState) :
  auto_schedule || estimate_only = true ->
  SimpleBlur.schedule auto_schedule estimate_only input_args implicit_args st
    = Some st' ->
  exists added_in added_out,
    estimates_of st' "input" = estimates_of st "input" ++ added_in
    /\ map be_var added_in = input_args
    /\ estimates_of st' "output" = estimates_of st "output" ++ added_out
    /\ map be_var added_out = "x" :: "y" :: implicit_args
    /\ Forall (fun be => be_min be = 0 /\ 0 < be_extent be)
         (added_in ++ added_out)
    /\ is_Some (scalar_estimates st' !! "width")
    /\ is_Some (scalar_estimates st' !! "height").
Proof.
  unfold SimpleBlur.schedule. intros -> Hrun.
  destruct input_args as [|a0 [|a1 rest]]; try discriminate Hrun.
  destruct (set_estimates_effect a0 a1 rest implicit_args st)
    as (st1 & Hset & _ & _ & Hs & Hest).
  rewrite Hset in Hrun. simpl in Hrun.
  assert (Hsame : estimates_of st' = estimates_of st1
                  /\ scalar_estimates st' = scalar_estimates st1).
  { destruct auto_schedule; inversion Hrun; subst st'; split; reflexivity. }
  destruct Hsame as [He Hsc].
  exists (blur_estimates (a0 :: a1 :: rest)),
         (blur_estimates (SimpleBlur.output_args implicit_args)).
  rewrite He, Hsc, Hs, !Hest. cbn -[blur_estimates SimpleBlur.output_args].
  split; [reflexivity|].
  split; [apply map_be_var_blur_estimates|].
  split; [reflexivity|].
  split; [apply map_be_var_blur_estimates|].
  split; [apply Forall_app; split; apply blur_estimates_positive|].
  split.
  - rewrite lookup_insert_ne by discriminate. rewrite lookup_insert_eq. eauto.
  - rewrite lookup_insert_eq. eauto.
Qed.

Lemma simple_blur_estimates_every_dimension_witness :
  exists st' added_in added_out,
    SimpleBlur.schedule false true Samples.blur_input_args
      Samples.blur_implicit_args initial = Some st'
    /\ estimates_of st' "input" = estimates_of initial "input" ++ added_in
    /\ map be_var added_in = Samples.blur_input_args
    /\ estimates_of st' "output" = estimates_of initial "output" ++ added_out
    /\ map be_var added_out = "x" :: "y" :: Samples.blur_implicit_args.
Proof.
  eexists.
  destruct (simple_blur_estimates_every_dimension false true
              Samples.blur_input_args Samples.blur_implicit_args initial _
              eq_refl eq_refl)
    as (added_in & added_out & Hin & Hvin & Hout & Hvout & _).
  exists added_in, added_out. split; [reflexivity|]. auto.
Defined.

End SimpleBlurScheduleFacts.

(* ===================================================================== *)
(** * Further properties of [AutoScheduled] *)
(* ===================================================================== *)

Section TutorialScheduleFacts.
Import Frontend.

(** X6.  [AutoScheduled::schedule] keeps the two ways of scheduling apart, as
    its own comment demands of a caller of the auto-scheduler.  With
    [auto_schedule] set it applies no directive to any Func, estimates the
    three dimensions of [input], [factor] and both dimensions of both
    outputs, and files one request with the machine parameters
    (32, 16 * 1024 * 1024, 40).  Otherwise it files no request, records no
    estimate, and appends [compute_root] to [gray], [Iy] and [Ix] only. *)
Theorem tutorial_schedule_modes (st : GenState) :
  (directives (Harris.schedule true st) = directives st
   /\ auto_schedule_calls (Harris.schedule true st)
      = auto_schedule_calls st ++ [Some (mkMachineParams 32 16777216 40)]
   /\ scalar_estimates (Harris.schedule true st)
      = <["factor" := SFloat 20 (-1)]> (scalar_estimates st)
   /\ (forall f,
         estimates_of (Harris.schedule true st) f
         = estimates_of st f
             ++ (if decide (f = "input")
                 then [mkBoundsEstimate "0" 0 1024; mkBoundsEstimate "1" 0 1024;
                       mkBoundsEstimate "2" 0 3]
                 else if decide (f = "output1" \/ f = "output2")
                 then [mkBoundsEstimate "x" 0 1024; mkBoundsEstimate "y" 0 1024]
                 else [])))
  /\ (auto_schedule_calls (Harris.schedule false st) = auto_schedule_calls st
      /\ bounds_estimates (Harris.schedule false st) = bounds_estimates st
      /\ scalar_estimates (Harris.schedule false st) = scalar_estimates st
      /\ (forall f,
            schedule_of (Harris.schedule false st) f
            = schedule_of st f
                ++ (if decide (f = "gray" \/ f = "Iy" \/ f = "Ix")
                    then [ComputeRoot] else []))).
Proof.
  split; [split; [reflexivity | split; [reflexivity | split; [reflexivity|]]]
         | split; [reflexivity | split; [reflexivity | split; [reflexivity|]]]].
  - intros f. unfold Harris.schedule.
    assert (Hcall : forall mp s, estimates_of (auto_schedule_outputs mp s) f
                                 = estimates_of s f) by reflexivity.
    assert (Hscal : forall p v s, estimates_of (set_estimate p v s) f
                                  = estimates_of s f) by reflexivity.
    rewrite Hcall.
    repeat (rewrite ?estimates_of_estimate, ?Hscal;
            repeat case_decide; subst; try discriminate;
            try (exfalso; intuition congruence)).
    all: rewrite ?app_nil_r, <- ?app_assoc; reflexivity.
  - intros f. unfold Harris.schedule, schedule_of, apply_directive. simpl.
    rewrite !lookup_insert.
    repeat case_decide; subst; try discriminate;
      try (exfalso; intuition congruence);
      simpl; rewrite ?app_nil_r, <- ?app_assoc; reflexivity.
Qed.

End TutorialScheduleFacts.

(* ===================================================================== *)
(** * Further properties of [AutoScheduled::generate] *)
(* ===================================================================== *)

(** Two expressions of the same shape are equal when their coordinates
    are. *)
Ltac same_shape :=
  repeat lazymatch goal with
         | |- @eq Z _ _ => lia
         | |- _ => progress f_equal
         end.

Section HarrisFacts.
Context {F : Type} `{Elem F}.

(** Two images, each with its boundary condition. *)
Variable input input' : Z -> Z -> Z -> F.
Variable edge edge' : (Z -> Z -> Z -> F) -> Z -> Z -> Z -> F.

Lemma gray_window x y :
  (forall c, 0 <= c <= 2 ->
     Harris.in_b input edge x y c = Harris.in_b input' edge' x y c) ->
  Harris.gray input edge x y = Harris.gray input' edge' x y.
Proof. intros Hin. unfold Harris.gray. rewrite !Hin by lia. reflexivity. Qed.

Lemma gradients_window x y :
  (forall a b, x - 1 <= a <= x + 1 -> y - 1 <= b <= y + 1 ->
     Harris.gray input edge a b = Harris.gray input' edge' a b) ->
  Harris.Ix input edge x y = Harris.Ix input' edge' x y
  /\ Harris.Iy input edge x y = Harris.Iy input' edge' x y.
Proof.
  intros Hg. unfold Harris.Ix, Harris.Iy.
  rewrite !Hg by lia. split; reflexivity.
Qed.

Lemma products_window x y :
  (forall a b, x - 1 <= a <= x + 1 -> y - 1 <= b <= y + 1 ->
     Harris.gray input edge a b = Harris.gray input' edge' a b) ->
  Harris.Ixx input edge x y = Harris.Ixx input' edge' x y
  /\ Harris.Iyy input edge x y = Harris.Iyy input' edge' x y
  /\ Harris.Ixy input edge x y = Harris.Ixy input' edge' x y.
Proof.
  intros Hg. destruct (gradients_window x y Hg) as [Hx Hy].
  unfold Harris.Ixx, Harris.Iyy, Harris.Ixy. rewrite Hx, Hy. auto.
Qed.

Lemma sums_window x y :
  (forall a b, x - 2 <= a <= x + 2 -> y - 2 <= b <= y + 2 ->
     Harris.gray input edge a b = Harris.gray input' edge' a b) ->
  Harris.Sxx input edge x y = Harris.Sxx input' edge' x y
  /\ Harris.Syy input edge x y = Harris.Syy input' edge' x y
  /\ Harris.Sxy input edge x y = Harris.Sxy input' edge' x y.
Proof.
  intros Hg.
  assert (Hp : forall a b, x - 1 <= a <= x + 1 -> y - 1 <= b <= y + 1 ->
            Harris.Ixx input edge a b = Harris.Ixx input' edge' a b
            /\ Harris.Iyy input edge a b = Harris.Iyy input' edge' a b
            /\ Harris.Ixy input edge a b = Harris.Ixy input' edge' a b).
  { intros a b Ha Hb. apply products_window. intros; apply Hg; lia. }
  unfold Harris.Sxx, Harris.Syy, Harris.Sxy, Harris.sum3x3.
  repeat split.
  - rewrite !(fun a b Ha Hb => proj1 (Hp a b Ha Hb)) by lia. reflexivity.
  - rewrite !(fun a b Ha Hb => proj1 (proj2 (Hp a b Ha Hb))) by lia.
    reflexivity.
  - rewrite !(fun a b Ha Hb => proj2 (proj2 (Hp a b Ha Hb))) by lia.
    reflexivity.
Qed.

Lemma harris_window x y :
  (forall a b, x - 2 <= a <= x + 2 -> y - 2 <= b <= y + 2 ->
     Harris.gray input edge a b = Harris.gray input' edge' a b) ->
  Harris.harris input edge x y = Harris.harris input' edge' x y.
Proof.
  intros Hg. destruct (sums_window x y Hg) as (Hxx & Hyy & Hxy).
  unfold Harris.harris, Harris.det, Harris.trace.
  rewrite Hxx, Hyy, Hxy. reflexivity.
Qed.

(** X7.  The outputs of [AutoScheduled] are local: [output1(x, y)] and
    [output2(x, y)] read the boundary-conditioned input only in the 5 x 5
    window [x .. x+4] x [y .. y+4] of the three channels 0, 1, 2.  Two
    images that agree there give the same output values at [(x, y)]. *)
Theorem harris_outputs_read_a_5x5_window (factor : F) (x y : Z) :
  (forall a b c, x <= a <= x + 4 -> y <= b <= y + 4 -> 0 <= c <= 2 ->
     Harris.in_b input edge a b c = Harris.in_b input' edge' a b c) ->
  Harris.output1 input edge x y = Harris.output1 input' edge' x y
  /\ Harris.output2 input factor edge x y
     = Harris.output2 input' factor edge' x y.
Proof.
  intros Hin.
  assert (Hh : Harris.harris input edge (x + 2) (y + 2)
               = Harris.harris input' edge' (x + 2) (y + 2)).
  { apply harris_window. intros a b Ha Hb. apply gray_window.
    intros c Hc. apply Hin; lia. }
  unfold Harris.output1, Harris.output2. rewrite Hh. auto.
Qed.

Lemma gray_shift dx dy :
  (forall a b c, Harris.in_b input' edge' a b c
                 = Harris.in_b input edge (a + dx) (b + dy) c) ->
  forall a b, Harris.gray input' edge' a b
              = Harris.gray input edge (a + dx) (b + dy).
Proof. intros Hin a b. unfold Harris.gray. rewrite !Hin. reflexivity. Qed.

Lemma gradients_shift dx dy :
  (forall a b, Harris.gray input' edge' a b
               = Harris.gray input edge (a + dx) (b + dy)) ->
  forall a b,
    Harris.Ix input' edge' a b = Harris.Ix input edge (a + dx) (b + dy)
    /\ Harris.Iy input' edge' a b = Harris.Iy input edge (a + dx) (b + dy).
Proof.
  intros Hg a b. unfold Harris.Ix, Harris.Iy. rewrite !Hg.
  split; same_shape.
Qed.

Lemma sums_shift dx dy :
  (forall a b, Harris.gray input' edge' a b
               = Harris.gray input edge (a + dx) (b + dy)) ->
  forall a b,
    Harris.Sxx input' edge' a b = Harris.Sxx input edge (a + dx) (b + dy)
    /\ Harris.Syy input' edge' a b = Harris.Syy input edge (a + dx) (b + dy)
    /\ Harris.Sxy input' edge' a b = Harris.Sxy input edge (a + dx) (b + dy).
Proof.
  intros Hg a b.
  pose proof (fun u v => proj1 (gradients_shift dx dy Hg u v)) as Hx.
  pose proof (fun u v => proj2 (gradients_shift dx dy Hg u v)) as Hy.
  unfold Harris.Sxx, Harris.Syy, Harris.Sxy, Harris.sum3x3,
    Harris.Ixx, Harris.Iyy, Harris.Ixy.
  rewrite !Hx, !Hy. repeat split; same_shape.
Qed.

(** X8.  The outputs of [AutoScheduled] are translation-equivariant: if the
    boundary-conditioned input is moved by [(dx, dy)], so are both
    outputs. *)
Theorem harris_outputs_commute_with_translation (factor : F) (dx dy x y : Z) :
  (forall a b c, Harris.in_b input' edge' a b c
                 = Harris.in_b input edge (a + dx) (b + dy) c) ->
  Harris.output1 input' edge' x y
  = Harris.output1 input edge (x + dx) (y + dy)
  /\ Harris.output2 input' factor edge' x y
     = Harris.output2 input factor edge (x + dx) (y + dy).
Proof.
  intros Hin. pose proof (gray_shift dx dy Hin) as Hg.
  assert (Hh : Harris.harris input' edge' (x + 2) (y + 2)
               = Harris.harris input edge (x + dx + 2) (y + dy + 2)).
  { destruct (sums_shift dx dy Hg (x + 2) (y + 2)) as (Hxx & Hyy & Hxy).
    unfold Harris.harris, Harris.det, Harris.trace.
    rewrite Hxx, Hyy, Hxy. same_shape. }
  unfold Harris.output1, Harris.output2. rewrite Hh. auto.
Qed.

(** X9.  The two gradient filters are transposes of each other: on the
    transposed image, [Ix] is [Iy] with its coordinates exchanged and
    [Iy] is [Ix], and likewise for their squares [Ixx] and [Iyy]. *)
Theorem gradient_filters_are_transposes (x y : Z) :
  (forall a b c, Harris.in_b input' edge' a b c
                 = Harris.in_b input edge b a c) ->
  Harris.Ix input' edge' x y = Harris.Iy input edge y x
  /\ Harris.Iy input' edge' x y = Harris.Ix input edge y x
  /\ Harris.Ixx input' edge' x y = Harris.Iyy input edge y x
  /\ Harris.Iyy input' edge' x y = Harris.Ixx input edge y x.
Proof.
  intros Hin.
  assert (Hg : forall a b, Harris.gray input' edge' a b
                           = Harris.gray input edge b a).
  { intros a b. unfold Harris.gray. rewrite !Hin. reflexivity. }
  assert (Hx : Harris.Ix input' edge' x y = Harris.Iy input edge y x).
  { unfold Harris.Ix, Harris.Iy. rewrite !Hg. reflexivity. }
  assert (Hy : Harris.Iy input' edge' x y = Harris.Ix input edge y x).
  { unfold Harris.Ix, Harris.Iy. rewrite !Hg. reflexivity. }
  unfold Harris.Ixx, Harris.Iyy. rewrite Hx, Hy. auto.
Qed.

(** X10.  [sum3x3(f, x, y)] reads [f] in the 3 x 3 window around [(x, y)] only,
    and commutes with translations of [f]. *)
Theorem sum3x3_is_local_and_translation_equivariant
  (f g : Z -> Z -> F) (x y : Z) :
  ((forall a b, x - 1 <= a <= x + 1 -> y - 1 <= b <= y + 1 -> f a b = g a b) ->
   Harris.sum3x3 f x y = Harris.sum3x3 g x y)
  /\ (forall dx dy,
        (forall a b, g a b = f (a + dx) (b + dy)) ->
        Harris.sum3x3 g x y = Harris.sum3x3 f (x + dx) (y + dy)).
Proof.
  split.
  - intros Hfg. unfold Harris.sum3x3. rewrite !Hfg by lia. reflexivity.
  - intros dx dy Hfg. unfold Harris.sum3x3. rewrite !Hfg. same_shape.
Qed.

End HarrisFacts.

(** Images over the integers to run the theorems on: a ramp, the ramp cut
    to the window [0 .. 4] x [0 .. 4], the ramp moved by (1, 2), and the
    ramp transposed. *)
Lemma harris_outputs_read_a_5x5_window_witness :
  let img := fun a b c : Z => a + 2 * b + c in
  let cut := fun a b c : Z =>
    if (0 <=? a) && (a <=? 4) && (0 <=? b) && (b <=? 4)
    then a + 2 * b + c else 0 in
  @Harris.output1 Z Samples.z_elem img (fun f => f) 0 0
  = @Harris.output1 Z Samples.z_elem cut (fun f => f) 0 0.
Proof.
  intros img cut.
  refine (proj1 (@harris_outputs_read_a_5x5_window Z Samples.z_elem
                   img cut (fun f => f) (fun f => f) 1 0 0 _)).
  intros a b c Ha Hb Hc. unfold Harris.in_b, img, cut.
  rewrite !(proj2 (Z.leb_le _ _)) by lia. reflexivity.
Defined.

Lemma harris_outputs_commute_with_translation_witness :
  let img := fun a b c : Z => a + 2 * b + c in
  let moved := fun a b c : Z => (a + 1) + 2 * (b + 2) + c in
  @Harris.output1 Z Samples.z_elem moved (fun f => f) 5 7
  = @Harris.output1 Z Samples.z_elem img (fun f => f) (5 + 1) (7 + 2).
Proof.
  intros img moved.
  refine (proj1 (@harris_outputs_commute_with_translation Z Samples.z_elem
                   img moved (fun f => f) (fun f => f) 1 1 2 5 7 _)).
  intros a b c. reflexivity.
Defined.

Lemma gradient_filters_are_transposes_witness :
  let img := fun a b c : Z => a + 2 * b + c in
  let transposed := fun a b c : Z => b + 2 * a + c in
  @Harris.Ix Z Samples.z_elem transposed (fun f => f) 5 7
  = @Harris.Iy Z Samples.z_elem img (fun f => f) 7 5.
Proof.
  intros img transposed.
  refine (proj1 (@gradient_filters_are_transposes Z Samples.z_elem
                   img transposed (fun f => f) (fun f => f) 5 7 _)).
  intros a b c. reflexivity.
Defined.

Lemma sum3x3_is_local_and_translation_equivariant_witness :
  let f := fun a b : Z => a * b in
  let g := fun a b : Z => (a + 3) * (b + 4) in
  @Harris.sum3x3 Z Samples.z_elem g 1 1 = @Harris.sum3x3 Z Samples.z_elem f 4 5.
Proof.
  intros f g.
  refine (proj2 (@sum3x3_is_local_and_translation_equivariant Z Samples.z_elem
                   f g 1 1) 3 4 _).
  intros a b. reflexivity.
Defined.

(* ===================================================================== *)
(** * Further properties of [SimpleBlur::generate] *)
(* ===================================================================== *)

Section BlurFacts.
Context {V : Type} `{Elem V}.

(** Two inputs, each with its extents and its boundary condition. *)
Variable input input' : Z -> Z -> list Z -> V.
Variable width height width' height' : Z.
Variable edge edge' :
  (Z -> Z -> list Z -> V) -> list (Z * Z) -> Z -> Z -> list Z -> V.

(** X11.  [SimpleBlur] is local: [blur_x(x, y, _)] reads the boundary-conditioned
    input at [x .. x+2] of row [y], and [output(x, y, _)] reads it in the
    3 x 3 window [x .. x+2] x [y .. y+2], both at the same trailing
    coordinates only. *)
Theorem blur_reads_a_3x3_window (x y : Z) (r : list Z) :
  ((forall a, x <= a <= x + 2 ->
      SimpleBlur.in_ input width height edge a y r
      = SimpleBlur.in_ input' width' height' edge' a y r) ->
   SimpleBlur.blur_x input width height edge x y r
   = SimpleBlur.blur_x input' width' height' edge' x y r)
  /\ ((forall a b, x <= a <= x + 2 -> y <= b <= y + 2 ->
         SimpleBlur.in_ input width height edge a b r
         = SimpleBlur.in_ input' width' height' edge' a b r) ->
      SimpleBlur.output input width height edge x y r
      = SimpleBlur.output input' width' height' edge' x y r).
Proof.
  split.
  - intros Hin. unfold SimpleBlur.blur_x. rewrite !Hin by lia. reflexivity.
  - intros Hin. unfold SimpleBlur.output, SimpleBlur.blur_x.
    rewrite !Hin by lia. reflexivity.
Qed.



End BlurFacts.

Lemma blur_reads_a_3x3_window_witness :
  let img := fun (a b : Z) (r : list Z) => a + 2 * b in
  let cut := fun (a b : Z) (r : list Z) =>
    if (0 <=? a) && (a <=? 2) && (0 <=? b) && (b <=? 2)
    then a + 2 * b else 0 in
  @SimpleBlur.output Z Samples.z_elem img 8 8 (fun f _ => f) 0 0 [1]
  = @SimpleBlur.output Z Samples.z_elem cut 8 8 (fun f _ => f) 0 0 [1].
Proof.
  intros img cut.
  refine (proj2 (@blur_reads_a_3x3_window Z Samples.z_elem img cut 8 8 8 8
                   (fun f _ => f) (fun f _ => f) 0 0 [1]) _).
  intros a b Ha Hb. unfold SimpleBlur.in_, img, cut.
  rewrite !(proj2 (Z.leb_le _ _)) by lia. reflexivity.
Defined.



Lemma estimate_loop_stays_in_bounds_witness :
  SimpleBlur.for_range 2 5
    (SimpleBlur.estimate_arg "input" ["_0"; "_1"; "_2"] 4) Frontend.initial
  = None.
Proof.
  apply (proj1 (estimate_loop_stays_in_bounds "input" ["_0"; "_1"; "_2"] 4
                  2 5 Frontend.initial)).
  simpl. lia.
Defined.

Lemma simple_blur_manual_branch_witness :
  exists st',
    SimpleBlur.schedule false false [] [] Frontend.initial = Some st'
    /\ Frontend.schedule_of st' "input" = Frontend.schedule_of Frontend.initial "input".
Proof.
  destruct (simple_blur_manual_branch [] [] Frontend.initial)
    as (st' & Hrun & _ & _ & Hother & _).
  exists st'. split; [exact Hrun|].
  apply Hother; discriminate.
Defined.
